(** * utils.py: state encodings and performance metrics

    A shallow embedding of the numeric helpers of [utils.py]:
    [sigmoid], [generate_price_state], [generate_portfolio_state],
    [generate_combined_state], [daily_treasury_bond_return_rate],
    [sharpe_ratio_custom] and [maximum_drawdown].

    Conventions of the embedding.
    - Python [int]s ([t], [n], indices) are [Z]; negative indices and slice
      bounds follow Python's rules.
    - Python/numpy floats are real numbers ([R]): arithmetic is exact, the
      rounding of binary64 is not modelled.  The values [-inf] and [nan]
      that [np.log] and [np.mean] can produce from real inputs are kept
      apart in [np_float].  Statements that hold of the real numbers only
      say so; module [B64] replays [sigmoid], [generate_price_state] and
      [sharpe_ratio_custom] in binary64 where rounding decides.
    - Exceptions are the [Raise] outcomes of [result]. *)

From Stdlib Require PrimFloat.
From Stdlib Require Import Ascii String.
From Stdlib Require Import List ZArith Reals RList Lra Lia Bool.
Import ListNotations.

Local Open Scope Z_scope.

(** ** Outcomes of Python code *)

Inductive exn : Type :=
| IndexError
| ValueError
| ZeroDivisionError.

Inductive result (A : Type) : Type :=
| Ok (a : A)
| Raise (e : exn).

Arguments Ok {A} a.
Arguments Raise {A} e.

Definition bind {A B : Type} (c : result A) (k : A -> result B) : result B :=
  match c with
  | Ok a => k a
  | Raise e => Raise e
  end.

Notation "x <- c ;; k" := (bind c (fun x => k))
  (at level 61, c at next level, right associativity).

(** ** Python lists *)

Module Py.
Section Lists.
Context {A : Type}.

Definition len (l : list A) : Z := Z.of_nat (length l).

(** [l[i]]: a negative index counts from the end; outside the list it is
    an [IndexError]. *)
Definition getitem (l : list A) (i : Z) : result A :=
  let j := if i <? 0 then i + len l else i in
  if (j <? 0) || (len l <=? j) then Raise IndexError
  else match nth_error l (Z.to_nat j) with
       | Some x => Ok x
       | None => Raise IndexError
       end.

(** A slice bound: a negative bound counts from the end, and the result
    is clamped to [0 .. len l]. *)
Definition clamp (l : list A) (i : Z) : Z :=
  let j := if i <? 0 then i + len l else i in
  Z.max 0 (Z.min (len l) j).

(** [l[a:b]]; never raises. *)
Definition slice (l : list A) (a b : Z) : list A :=
  let a' := clamp l a in
  let b' := clamp l b in
  firstn (Z.to_nat (b' - a')) (skipn (Z.to_nat a') l).

(** [k * l]; empty when [k <= 0]. *)
Definition repeat_list (k : Z) (l : list A) : list A :=
  concat (repeat l (Z.to_nat k)).
End Lists.

(** [range(n)]; empty when [n <= 0]. *)
Definition range (n : Z) : list Z :=
  map Z.of_nat (seq 0 (Z.to_nat n)).

(** [a / b] on Python floats. *)
Definition truediv (a b : R) : result R :=
  if Req_dec_T b 0%R then Raise ZeroDivisionError else Ok (a / b)%R.
End Py.

(** ** numpy *)

Module Np.
(** A float computed by numpy from real arguments: a real number, or one
    of the two values that are not ([np.log 0] is [-inf]; [np.log] of a
    negative number and [np.mean] of an empty array are [nan]). *)
Inductive np_float : Type :=
| Fin (x : R)
| NegInf
| NaN.

Definition exp (x : R) : R := Rtrigo_def.exp x.

Definition log (x : R) : np_float :=
  if Rlt_dec 0 x then Fin (ln x)
  else if Req_dec_T x 0 then NegInf
  else NaN.

Definition sum (a : list R) : R := fold_left Rplus a 0%R.

(** [np.mean] of a non-empty array. *)
Definition mean (a : list R) : R :=
  (sum a / INR (length a))%R.

(** [np.std] of a non-empty array (population standard deviation):
    the square root of the mean of [abs(a - a.mean())**2]. *)
Definition std (a : list R) : R :=
  let m := mean a in
  sqrt (mean (map (fun x => (Rabs (x - m) ^ 2)%R) a)).

(** [a - b] on arrays of one shape. *)
Definition sub (a b : list R) : list R :=
  map (fun p => (fst p - snd p)%R) (combine a b).

(** [np.maximum.accumulate]: the running maximum. *)
Fixpoint accumulate_from (m : R) (a : list R) : list R :=
  match a with
  | [] => []
  | x :: a' => let m' := Rmax m x in m' :: accumulate_from m' a'
  end.

Definition maximum_accumulate (a : list R) : list R :=
  match a with
  | [] => []
  | x :: a' => x :: accumulate_from x a'
  end.

(** [np.argmax]: the first index of the largest element; a [ValueError]
    on an empty sequence. *)
Fixpoint argmax_from (best : R) (besti i : Z) (a : list R) : Z :=
  match a with
  | [] => besti
  | x :: a' =>
      if Rlt_dec best x then argmax_from x i (i + 1) a'
      else argmax_from best besti (i + 1) a'
  end.

Definition argmax (a : list R) : result Z :=
  match a with
  | [] => Raise ValueError
  | x :: a' => Ok (argmax_from x 0 1 a')
  end.
End Np.

Import Np.

(** ** The functions of utils.py *)

Definition sigmoid (x : R) : R := (1 / (1 + Np.exp (- x)))%R.

(** The window [period] that [generate_price_state] and
    [generate_combined_state] both build:
    [stock_prices[start:t+1] if start >= 0
     else -start * [stock_prices[0]] + stock_prices[0:t+1]]. *)
Definition period {A : Type} (stock_prices : list A) (t n : Z) : result (list A) :=
  let start := t - n in
  if 0 <=? start then Ok (Py.slice stock_prices start (t + 1))
  else
    p0 <- Py.getitem stock_prices 0 ;;
    Ok (Py.repeat_list (- start) [p0] ++ Py.slice stock_prices 0 (t + 1)).

(** The loop [for i in range(n): diff.append(sigmoid(period[i+1] - period[i]))],
    threading the list [diff]. *)
Fixpoint diff_loop (period : list R) (idx : list Z) (diff : list R) : result (list R) :=
  match idx with
  | [] => Ok diff
  | i :: idx' =>
      a <- Py.getitem period (i + 1) ;;
      b <- Py.getitem period i ;;
      diff_loop period idx' (diff ++ [sigmoid (a - b)])
  end.

Definition generate_price_state (stock_prices : list R) (t n : Z)
  : result (list (list R)) :=
  period <- period stock_prices t n ;;
  diff <- diff_loop period (Py.range n) [] ;;
  Ok [diff].

Definition epsilon : R := 1e-6%R.

Definition generate_portfolio_state (stock_price balance num_holding : R)
  : list (list np_float) :=
  [[Np.log stock_price; Np.log balance; Np.log (num_holding + epsilon)]].

Definition generate_combined_state (t n : Z) (stock_prices : list R)
  (balance num_holding : R) : result (list (list np_float)) :=
  period <- period stock_prices t n ;;
  diff <- diff_loop period (Py.range n) [] ;;
  pt <- Py.getitem stock_prices t ;;
  Ok [map Fin diff ++ [Np.log pt; Np.log balance; Np.log (num_holding + epsilon)]].

Definition daily_treasury_bond_return_rate : R :=
  let r_year := (2.75 / 100)%R in
  (Rpower (1 + r_year) (1 / 365) - 1)%R.

(** On an empty sequence numpy's mean and standard deviation are [nan],
    which is not equal to 0, and the quotient is [nan]. *)
Definition sharpe_ratio_custom (return_rates : list R) : np_float :=
  let risk_free_rate := daily_treasury_bond_return_rate in
  match return_rates with
  | [] => NaN
  | _ =>
      let excess := map (fun x => (x - risk_free_rate)%R) return_rates in
      let numerator := Np.mean excess in
      let denominator := Np.std excess in
      if Req_dec_T denominator 0 then Fin 0
      else if Req_dec_T numerator 0 then Fin 0
      else Fin (numerator / denominator)
  end.

Definition maximum_drawdown (portfolio_values : list R) : result R :=
  end_index <-
    Np.argmax (Np.sub (Np.maximum_accumulate portfolio_values) portfolio_values) ;;
  if end_index =? 0 then Ok 0%R
  else
    beginning_iudex <- Np.argmax (Py.slice portfolio_values 0 end_index) ;;
    ve <- Py.getitem portfolio_values end_index ;;
    vb <- Py.getitem portfolio_values beginning_iudex ;;
    Py.truediv (ve - vb) vb.

(** ** Notions of the specification *)

(** The window as the specification words it: the [n+1] prices at the
    indices [t-n .. t] when [t-n >= 0]; otherwise [n-t] copies of the
    first price followed by the prices at [0 .. t]. *)
Definition padded_window {A : Type} (d : A) (prices : list A) (t n : Z) : list A :=
  if 0 <=? t - n
  then firstn (Z.to_nat (n + 1)) (skipn (Z.to_nat (t - n)) prices)
  else repeat (nth 0 prices d) (Z.to_nat (n - t)) ++ firstn (Z.to_nat (t + 1)) prices.

(** The features as the specification words them: the logistic function of
    the adjacent differences of a window. *)
Definition squashed_differences (w : list R) : list R :=
  map (fun i => (1 / (1 + Rtrigo_def.exp (- (nth (S i) w 0 - nth i w 0))))%R)
      (seq 0 (length w - 1)).

(** The series [p] with its first [k] entries replaced by [p[0]]. *)
Definition replace_leading (p : list R) (k : nat) : list R :=
  repeat (nth 0 p 0%R) k ++ skipn k p.

(** The series [p] with [k] copies of [p[0]] put in front. *)
Definition prepend_leading (p : list R) (k : nat) : list R :=
  repeat (nth 0 p 0%R) k ++ p.

(** [e] is the first index below [len] at which [f] is largest. *)
Definition first_maximizer (f : nat -> R) (len e : nat) : Prop :=
  (e < len)%nat /\
  (forall j, (j < len)%nat -> (f j <= f e)%R) /\
  (forall j, (j < e)%nat -> (f j < f e)%R).

(** The drop at index [i]: the running maximum of the values up to [i],
    less the value at [i]. *)
Definition drawdown_at (values : list R) (i : nat) : R :=
  (MaxRlist (firstn (S i) values) - nth i values 0)%R.

(** A sequence of values that grows at every step. *)
Definition strictly_increasing (values : list R) : Prop :=
  forall i j, (i < j)%nat -> (j < length values)%nat ->
    (nth i values 0 < nth j values 0)%R.

(** ** The other helpers of utils.py *)

(** [softmax] of a one-dimensional array. *)
Definition softmax (x : list R) : list R :=
  let e := map Np.exp x in
  map (fun v => (v / Np.sum e)%R) e.

(** [s.split(sep)] for a separator of one character: every occurrence
    splits, empty fields are kept. *)
Fixpoint str_split (sep : ascii) (s : string) : list string :=
  match s with
  | EmptyString => [EmptyString]
  | String c s' =>
      if Ascii.eqb c sep then EmptyString :: str_split sep s'
      else match str_split sep s' with
           | [] => [String c EmptyString]
           | h :: fields => String c h :: fields
           end
  end.

Section ClosePrices.
(** Python's [float] on a string; a [ValueError] on a malformed one. *)
Variable float : string -> result R.

(** The loop [for line in lines[1:]: prices.append(float(line.split(",")[4]))],
    threading the list [prices]. *)
Fixpoint close_prices_loop (lines : list string) (prices : list R)
  : result (list R) :=
  match lines with
  | [] => Ok prices
  | line :: lines' =>
      field <- Py.getitem (str_split ","%char line) 4 ;;
      price <- float field ;;
      close_prices_loop lines' (prices ++ [price])
  end.

(** [stock_close_prices], on the lines that
    [open("data/" + key + ".csv").read().splitlines()] yields. *)
Definition stock_close_prices (lines : list string) : result (list R) :=
  close_prices_loop (Py.slice lines 1 (Py.len lines)) [].
End ClosePrices.





(** The price that entry [k] of the window at [t] stands for. *)
Definition window_price (stock_prices : list R) (t n k : Z) : R :=
  nth (Z.to_nat (Z.max 0 (t - n + k))) stock_prices 0%R.

(** The number of occurrences of a character in a string. *)
Fixpoint count_char (c : ascii) (s : string) : nat :=
  match s with
  | EmptyString => 0%nat
  | String c' s' => ((if Ascii.eqb c' c then 1 else 0) + count_char c s')%nat
  end.

(** The inverse of [str_split]: [sep.join(fields)]. *)
Fixpoint str_join (sep : ascii) (fields : list string) : string :=
  match fields with
  | [] => EmptyString
  | [field] => field
  | field :: fields' => (field ++ String sep (str_join sep fields'))%string
  end.

(** A data line parses to the price [p]: it has a field number 4 and
    [float] accepts it. *)
Definition parses (float : string -> result R) (line : string) (p : R) : Prop :=
  exists field,
    nth_error (str_split ","%char line) 4 = Some field /\ float field = Ok p.

(** A reader for the two decimal strings used in the examples; Python's
    [float] itself is a parameter of [stock_close_prices]. *)
Definition float_sample (s : string) : result R :=
  if String.eqb s "4.5" then Ok 4.5%R
  else if String.eqb s "5.5" then Ok 5.5%R
  else Raise ValueError.

(** ** The same code in binary64

    The operations [+ - * /] and [sqrt] of binary64 are the primitive ones.
    The C library's [exp] and [pow], which [np.exp] and [**] call, are not
    available: they are tabulated at the arguments used below. *)

Module B64.
Import PrimFloat.
Local Open Scope float_scope.

(** [np.exp]: the double nearest to [e^-40] at [-40]. *)
Definition exp (x : float) : float :=
  if x =? -40 then 0x1.39792499b1a24p-58 else nan.

(** [x ** y]: the double nearest to [1.0275^(1/365)] at the arguments of
    [daily_treasury_bond_return_rate]. *)
Definition pow (x y : float) : float :=
  if (x =? 0x1.070a3d70a3d71p+0) && (y =? 0x1.6719f3601671ap-9)
  then 0x1.0004df03ce78ep+0 else nan.

Definition sigmoid (x : float) : float := 1 / (1 + exp (- x)).

Fixpoint diff_loop (period : list float) (idx : list Z) (diff : list float)
  : result (list float) :=
  match idx with
  | [] => Ok diff
  | i :: idx' =>
      a <- Py.getitem period (i + 1) ;;
      b <- Py.getitem period i ;;
      diff_loop period idx' (diff ++ [sigmoid (a - b)])
  end.

Definition generate_price_state (stock_prices : list float) (t n : Z)
  : result (list (list float)) :=
  period <- period stock_prices t n ;;
  diff <- diff_loop period (Py.range n) [] ;;
  Ok [diff].

(** [len(a)] as a float. *)
Definition count (a : list float) : float :=
  fold_left (fun k _ => k + 1) a 0.

(** [np.sum] of an array of fewer than 8 elements: numpy adds them from
    left to right. *)
Definition sum (a : list float) : float := fold_left add a 0.

Definition mean (a : list float) : float := sum a / count a.

(** [np.std]: the deviations from the mean are squared by a product. *)
Definition std (a : list float) : float :=
  let m := mean a in
  sqrt (mean (map (fun x => (x - m) * (x - m)) a)).

Definition daily_treasury_bond_return_rate : float :=
  let r_year := 2.75 / 100 in
  pow (1 + r_year) (1 / 365) - 1.

Definition sharpe_ratio_custom (return_rates : list float) : float :=
  let risk_free_rate := daily_treasury_bond_return_rate in
  let excess := map (fun x => x - risk_free_rate) return_rates in
  let numerator := mean excess in
  let denominator := std excess in
  if (denominator =? 0) || (numerator =? 0) then 0
  else numerator / denominator.

(** The doubles that the literals [0.05] and [0.001] denote. *)
Definition d0_05 : float := 0x1.999999999999ap-5.
Definition d0_001 : float := 0x1.0624dd2f1a9fcp-10.
End B64.

(** A sequence that never falls. *)
Definition nondecreasing (values : list R) : Prop :=
  forall i j, (i <= j)%nat -> (j < length values)%nat ->
    (nth i values 0 <= nth j values 0)%R.

(** * Properties *)

(** ** Python list primitives *)

Section PyFacts.
Context {A : Type}.
Implicit Types (l : list A) (i : Z).

Lemma getitem_inside l (k : nat) (d : A) :
  (k < length l)%nat -> Py.getitem l (Z.of_nat k) = Ok (nth k l d).
Proof.
  intros Hk. unfold Py.getitem, Py.len.
  destruct (Z.ltb_spec (Z.of_nat k) 0) as [Hneg|_]; [lia|].
  destruct (Z.ltb_spec (Z.of_nat k) 0) as [Hneg|_]; [lia|].
  destruct (Z.leb_spec (Z.of_nat (length l)) (Z.of_nat k)) as [Hle|_]; [lia|].
  cbn [orb]. rewrite Nat2Z.id.
  rewrite (nth_error_nth' l d Hk). reflexivity.
Qed.

Lemma getitem_outside l i :
  Py.len l <= i -> Py.getitem l i = Raise IndexError.
Proof.
  intros Hi. unfold Py.getitem, Py.len in *.
  destruct (Z.ltb_spec i 0) as [Hneg|_]; [lia|].
  destruct (Z.ltb_spec i 0) as [Hneg|_]; [lia|].
  destruct (Z.leb_spec (Z.of_nat (length l)) i) as [_|Hlt]; [|lia].
  reflexivity.
Qed.

Lemma getitem_Ok_bound l i x :
  0 <= i -> Py.getitem l i = Ok x -> i < Py.len l.
Proof.
  intros H0 Hget.
  destruct (Z.lt_ge_cases i (Py.len l)) as [Hlt|Hge]; [exact Hlt|].
  rewrite (getitem_outside l i Hge) in Hget. discriminate.
Qed.

Lemma clamp_inside l i : 0 <= i <= Py.len l -> Py.clamp l i = i.
Proof.
  intros Hi. unfold Py.clamp.
  destruct (Z.ltb_spec i 0); lia.
Qed.

Lemma clamp_above l i : Py.len l <= i -> Py.clamp l i = Py.len l.
Proof.
  intros Hi. unfold Py.clamp, Py.len in *.
  destruct (Z.ltb_spec i 0); lia.
Qed.

Lemma clamp_range l i : 0 <= Py.clamp l i <= Py.len l.
Proof. unfold Py.clamp, Py.len. lia. Qed.

(** A slice between two positions of the list. *)
Lemma slice_inside l (a b : Z) :
  0 <= a <= b -> b <= Py.len l ->
  Py.slice l a b = firstn (Z.to_nat (b - a)) (skipn (Z.to_nat a) l).
Proof.
  intros Hab Hb. unfold Py.slice.
  rewrite !clamp_inside by lia. reflexivity.
Qed.

Lemma slice_length l (a b : Z) :
  0 <= a <= b -> b <= Py.len l ->
  length (Py.slice l a b) = Z.to_nat (b - a).
Proof.
  intros Hab Hb. rewrite slice_inside by assumption.
  rewrite length_firstn, length_skipn. unfold Py.len in Hb. lia.
Qed.

Lemma slice_nth l (a b : Z) (k : nat) (d : A) :
  0 <= a <= b -> b <= Py.len l -> (k < Z.to_nat (b - a))%nat ->
  nth k (Py.slice l a b) d = nth (Z.to_nat a + k) l d.
Proof.
  intros Hab Hb Hk. rewrite slice_inside by assumption.
  rewrite nth_firstn.
  destruct (Nat.ltb_spec k (Z.to_nat (b - a))) as [_|Hge]; [|lia].
  apply nth_skipn.
Qed.

(** A slice never holds more than the part of the list after its start. *)
Lemma slice_length_le l (a b : Z) :
  0 <= a -> (length (Py.slice l a b) <= length l - Z.to_nat a)%nat.
Proof.
  intros Ha. unfold Py.slice.
  rewrite length_firstn, length_skipn.
  assert (Hc : Py.clamp l a = Z.min (Py.len l) a).
  { unfold Py.clamp, Py.len. destruct (Z.ltb_spec a 0); lia. }
  rewrite Hc. generalize (Py.clamp l b) as c. intros c.
  unfold Py.len. lia.
Qed.

Lemma repeat_list_singleton (k : Z) (x : A) :
  Py.repeat_list k [x] = repeat x (Z.to_nat k).
Proof.
  unfold Py.repeat_list. induction (Z.to_nat k) as [|m IH]; cbn.
  - reflexivity.
  - now rewrite IH.
Qed.
End PyFacts.

(** ** The window of prices *)

Section Window.
Context {A : Type}.
Variables (d : A) (prices : list A) (t n : Z).
Hypothesis Ht : 0 <= t < Py.len prices.
Hypothesis Hn : 0 <= n.

Lemma padded_window_length :
  length (padded_window d prices t n) = S (Z.to_nat n).
Proof.
  unfold padded_window, Py.len in *.
  destruct (Z.leb_spec 0 (t - n)) as [Hs|Hs].
  - rewrite length_firstn, length_skipn. lia.
  - rewrite length_app, repeat_length, length_firstn. lia.
Qed.

Lemma period_valid : period prices t n = Ok (padded_window d prices t n).
Proof.
  unfold period, padded_window.
  destruct (Z.leb_spec 0 (t - n)) as [Hs|Hs].
  - rewrite slice_inside by (unfold Py.len in *; lia).
    do 3 f_equal. lia.
  - assert (H0 : (0 < length prices)%nat) by (unfold Py.len in Ht; lia).
    change 0 with (Z.of_nat 0) at 1.
    rewrite (getitem_inside prices 0%nat d H0). cbn [bind].
    rewrite repeat_list_singleton.
    rewrite slice_inside by (unfold Py.len in *; lia).
    cbn [Z.to_nat skipn]. do 3 f_equal; lia.
Qed.

(** Entry [k] of the window is the price at index [t-n+k], or the first
    price where that index would be negative. *)
Lemma padded_window_nth (k : nat) :
  (k <= Z.to_nat n)%nat ->
  nth k (padded_window d prices t n) d
  = nth (Z.to_nat (Z.max 0 (t - n + Z.of_nat k))) prices d.
Proof.
  intros Hk. unfold padded_window, Py.len in *.
  destruct (Z.leb_spec 0 (t - n)) as [Hs|Hs].
  - rewrite nth_firstn.
    destruct (Nat.ltb_spec k (Z.to_nat (n + 1))) as [_|Hge]; [|lia].
    rewrite nth_skipn. f_equal. lia.
  - destruct (Nat.lt_ge_cases k (Z.to_nat (n - t))) as [Hlt|Hge].
    + rewrite app_nth1 by (rewrite repeat_length; exact Hlt).
      rewrite nth_repeat_lt by exact Hlt.
      f_equal. lia.
    + rewrite app_nth2 by (rewrite repeat_length; exact Hge).
      rewrite repeat_length, nth_firstn.
      destruct (Nat.ltb_spec (k - Z.to_nat (n - t)) (Z.to_nat (t + 1)))
        as [_|Hbad]; [|lia].
      f_equal. lia.
Qed.
End Window.

(** ** The loop over the window *)

Lemma diff_loop_run (p : list R) (k a : nat) (acc : list R) :
  (k = 0 \/ a + k < length p)%nat ->
  diff_loop p (map Z.of_nat (seq a k)) acc
  = Ok (acc ++ map (fun i => sigmoid (nth (S i) p 0 - nth i p 0)%R) (seq a k)).
Proof.
  revert a acc. induction k as [|k IH]; intros a acc Hk.
  - cbn. now rewrite app_nil_r.
  - destruct Hk as [Hk|Hk]; [discriminate|].
    cbn [seq map diff_loop].
    replace (Z.of_nat a + 1) with (Z.of_nat (S a)) by lia.
    rewrite (getitem_inside p (S a) 0%R) by lia.
    rewrite (getitem_inside p a 0%R) by lia.
    cbn [bind]. rewrite IH by lia.
    now rewrite <- app_assoc.
Qed.

(** An access past the end of the window stops the loop with an
    [IndexError], whatever was collected before. *)
Lemma diff_loop_raise (p : list R) (k a : nat) (acc : list R) :
  (0 < k)%nat -> (length p <= a + k)%nat ->
  diff_loop p (map Z.of_nat (seq a k)) acc = Raise IndexError.
Proof.
  revert a acc. induction k as [|k IH]; intros a acc Hk Hlen; [lia|].
  cbn [seq map diff_loop].
  destruct (Nat.lt_ge_cases (S a) (length p)) as [Hin|Hout].
  - replace (Z.of_nat a + 1) with (Z.of_nat (S a)) by lia.
    rewrite (getitem_inside p (S a) 0%R) by lia.
    rewrite (getitem_inside p a 0%R) by lia.
    cbn [bind]. apply IH; lia.
  - rewrite getitem_outside by (unfold Py.len; lia). reflexivity.
Qed.


Lemma squashed_differences_length (w : list R) :
  length (squashed_differences w) = (length w - 1)%nat.
Proof. unfold squashed_differences. now rewrite length_map, length_seq. Qed.

Lemma generate_price_state_valid (prices : list R) (t n : Z) :
  0 <= t < Py.len prices -> 0 <= n ->
  generate_price_state prices t n
  = Ok [squashed_differences (padded_window 0%R prices t n)].
Proof.
  intros Ht Hn. unfold generate_price_state.
  rewrite (period_valid 0%R prices t n Ht Hn). cbn [bind].
  unfold Py.range. rewrite diff_loop_run.
  - cbn [bind app]. unfold squashed_differences.
    rewrite padded_window_length by assumption.
    replace (S (Z.to_nat n) - 1)%nat with (Z.to_nat n) by lia.
    reflexivity.
  - rewrite padded_window_length by assumption. lia.
Qed.

Lemma squashed_differences_nth (w : list R) (i : nat) :
  (S i < length w)%nat ->
  nth i (squashed_differences w) 0%R
  = sigmoid (nth (S i) w 0 - nth i w 0)%R.
Proof.
  intros Hi. unfold squashed_differences.
  set (f := fun j : nat => _).
  rewrite (nth_indep _ 0%R (f 0%nat)) by (rewrite length_map, length_seq; lia).
  rewrite map_nth, seq_nth by lia. reflexivity.
Qed.


(** ** The price state *)

(** C1: on a non-empty series, at an index [0 <= t < len] and for a window
    length [n >= 0], [generate_price_state] returns one row of exactly [n]
    features.  The window holds [n+1] prices: those at the indices
    [t-n .. t] when [t-n >= 0], and otherwise [n-t] copies of the first price
    followed by the prices at [0 .. t].  Feature [i] is the logistic
    function [1/(1+e^-x)] of the [i]-th adjacent difference of the window. *)
Theorem generate_price_state_window (stock_prices : list R) (t n : Z) :
  stock_prices <> [] -> 0 <= t < Py.len stock_prices -> 0 <= n ->
  exists w row,
    period stock_prices t n = Ok w /\
    generate_price_state stock_prices t n = Ok [row] /\
    Z.of_nat (length row) = n /\
    Z.of_nat (length w) = n + 1 /\
    (0 <= t - n ->
     forall k, 0 <= k <= n ->
       nth (Z.to_nat k) w 0%R = nth (Z.to_nat (t - n + k)) stock_prices 0%R) /\
    (t - n < 0 ->
     w = repeat (nth 0 stock_prices 0%R) (Z.to_nat (n - t))
         ++ firstn (Z.to_nat (t + 1)) stock_prices) /\
    (forall i, 0 <= i < n ->
       nth (Z.to_nat i) row 0%R
       = sigmoid (nth (Z.to_nat (i + 1)) w 0 - nth (Z.to_nat i) w 0)%R) /\
    (forall x, sigmoid x = 1 / (1 + Rtrigo_def.exp (- x)))%R.
Proof.
  intros _ Ht Hn.
  exists (padded_window 0%R stock_prices t n),
         (squashed_differences (padded_window 0%R stock_prices t n)).
  pose proof (padded_window_length 0%R stock_prices t n Ht Hn) as Hlen.
  split; [apply period_valid; assumption|].
  split; [apply generate_price_state_valid; assumption|].
  split; [rewrite squashed_differences_length, Hlen; lia|].
  split; [rewrite Hlen; lia|].
  split; [|split; [|split]].
  - intros Hs k Hk.
    rewrite padded_window_nth by (try assumption; lia).
    f_equal. lia.
  - intros Hs. unfold padded_window.
    destruct (Z.leb_spec 0 (t - n)); [lia|reflexivity].
  - intros i Hi.
    rewrite squashed_differences_nth by (rewrite Hlen; lia).
    do 3 f_equal. lia.
  - reflexivity.
Qed.

Lemma generate_price_state_window_witness :
  exists w row,
    period [1; 2; 4]%R 1 2 = Ok w /\
    generate_price_state [1; 2; 4]%R 1 2 = Ok [row] /\
    Z.of_nat (length row) = 2 /\
    Z.of_nat (length w) = 2 + 1 /\
    (0 <= 1 - 2 ->
     forall k, 0 <= k <= 2 ->
       nth (Z.to_nat k) w 0%R = nth (Z.to_nat (1 - 2 + k)) [1; 2; 4]%R 0%R) /\
    (1 - 2 < 0 ->
     w = repeat (nth 0 [1; 2; 4]%R 0%R) (Z.to_nat (2 - 1))
         ++ firstn (Z.to_nat (1 + 1)) [1; 2; 4]%R) /\
    (forall i, 0 <= i < 2 ->
       nth (Z.to_nat i) row 0%R
       = sigmoid (nth (Z.to_nat (i + 1)) w 0 - nth (Z.to_nat i) w 0)%R) /\
    (forall x, sigmoid x = 1 / (1 + Rtrigo_def.exp (- x)))%R.
Proof.
  apply (generate_price_state_window [1; 2; 4]%R 1 2).
  - discriminate.
  - unfold Py.len; cbn; lia.
  - lia.
Defined.



(** ** Padding *)

Lemma sigmoid_injective (x y : R) : sigmoid x = sigmoid y -> x = y.
Proof.
  unfold sigmoid, Np.exp. intros H.
  pose proof (exp_pos (- x)) as Hx. pose proof (exp_pos (- y)) as Hy.
  assert (He : Rtrigo_def.exp (- x) = Rtrigo_def.exp (- y)).
  { apply (f_equal Rinv) in H.
    unfold Rdiv in H. rewrite !Rmult_1_l, !Rinv_inv in H. lra. }
  apply exp_inv in He. lra.
Qed.

(** C4, as stated, fails: on [[1; 2; 3; 4]] with [t = 1] and [n = 3] the
    encoder pads to the window [[1; 1; 1; 2]], while on the series with its
    first [n - t = 2] entries replaced, [[1; 1; 3; 4]], the window is
    [[1; 1; 1; 1]]; the last feature differs. *)
Lemma padding_by_replacement_fails :
  0 <= 1 < 3 /\ 3 <= Py.len [1; 2; 3; 4]%R /\
  replace_leading [1; 2; 3; 4]%R (Z.to_nat (3 - 1)) = [1; 1; 3; 4]%R /\
  generate_price_state [1; 2; 3; 4]%R 1 3
  <> generate_price_state (replace_leading [1; 2; 3; 4]%R (Z.to_nat (3 - 1))) 1 3.
Proof.
  split; [lia|]. split; [unfold Py.len; cbn; lia|]. split; [reflexivity|].
  change (Ok [[sigmoid (1 - 1); sigmoid (1 - 1); sigmoid (2 - 1)]]%R
          <> Ok [[sigmoid (1 - 1); sigmoid (1 - 1); sigmoid (1 - 1)]]%R).
  intros H. injection H as H. apply sigmoid_injective in H. lra.
Qed.

(** C4, amended: for [0 <= t < n <= len p], encoding [p] at [t] equals
    encoding, at index [n], the series that has [n - t] copies of [p[0]] put
    in front of [p]; and replacing the first [n - t] entries in place gives
    the same encoding when [t = 0]. *)
Theorem padding_equivalence (p : list R) (t n : Z) :
  0 <= t < n -> n <= Py.len p ->
  generate_price_state p t n
  = generate_price_state (prepend_leading p (Z.to_nat (n - t))) n n
  /\ (t = 0 ->
      generate_price_state p t n
      = generate_price_state (replace_leading p (Z.to_nat (n - t))) t n).
Proof.
  intros Ht Hn.
  assert (Hlen : Z.of_nat (length p) = Py.len p) by reflexivity.
  split.
  - rewrite generate_price_state_valid by lia.
    rewrite generate_price_state_valid
      by (unfold prepend_leading, Py.len in *;
          rewrite ?length_app, ?repeat_length; lia).
    do 3 f_equal. unfold padded_window, prepend_leading.
    destruct (Z.leb_spec 0 (t - n)) as [Hs|_]; [lia|].
    destruct (Z.leb_spec 0 (n - n)) as [_|Hs]; [|lia].
    rewrite Z.sub_diag. cbn [Z.to_nat skipn].
    rewrite firstn_app, repeat_length.
    rewrite (firstn_all2 (n := Z.to_nat (n + 1)) (repeat _ _))
      by (rewrite repeat_length; lia).
    do 2 f_equal. lia.
  - intros ->.
    rewrite generate_price_state_valid by lia.
    rewrite generate_price_state_valid
      by (unfold replace_leading, Py.len in *;
          rewrite ?length_app, ?repeat_length, ?length_skipn; lia).
    do 3 f_equal. unfold padded_window, replace_leading.
    destruct (Z.leb_spec 0 (0 - n)) as [Hs|_]; [lia|].
    destruct p as [|x p']; [unfold Py.len in Hn; cbn in Hn; lia|].
    destruct (Z.to_nat (n - 0)) as [|m] eqn:Em; [lia|].
    reflexivity.
Qed.

Lemma padding_equivalence_witness :
  generate_price_state [1; 2; 3; 4]%R 1 3
  = generate_price_state (prepend_leading [1; 2; 3; 4]%R (Z.to_nat (3 - 1))) 3 3
  /\ generate_price_state [1; 2; 3; 4]%R 0 3
     = generate_price_state (replace_leading [1; 2; 3; 4]%R (Z.to_nat (3 - 0))) 0 3.
Proof.
  split.
  - apply (padding_equivalence [1; 2; 3; 4]%R 1 3).
    + lia.
    + unfold Py.len; cbn; lia.
  - apply (padding_equivalence [1; 2; 3; 4]%R 0 3).
    + lia.
    + unfold Py.len; cbn; lia.
    + reflexivity.
Defined.

(** ** Index bounds of the price state *)

(** Past the end of the series, a window for [n >= 1] is too short. *)
Lemma period_too_short {A : Type} (prices w : list A) (t n : Z) :
  Py.len prices <= t -> 1 <= n ->
  period prices t n = Ok w -> (length w <= Z.to_nat n)%nat.
Proof.
  intros Ht Hn. unfold period.
  destruct (Z.leb_spec 0 (t - n)) as [Hs|Hs].
  - intros [= <-].
    pose proof (slice_length_le prices (t - n) (t + 1) Hs) as Hle.
    unfold Py.len in Ht. lia.
  - destruct (Py.getitem prices 0) as [p0|e]; cbn [bind]; [|discriminate].
    intros [= <-].
    rewrite length_app, repeat_list_singleton, repeat_length.
    pose proof (slice_length_le prices 0 (t + 1) (Z.le_refl 0)) as Hle.
    unfold Py.len in Ht. lia.
Qed.

Lemma generate_price_state_past_end (prices : list R) (t n : Z) :
  Py.len prices <= t -> 1 <= n ->
  generate_price_state prices t n = Raise IndexError.
Proof.
  intros Ht Hn. unfold generate_price_state.
  destruct (period prices t n) as [w|e] eqn:Ew; cbn [bind].
  - pose proof (period_too_short prices w t n Ht Hn Ew) as Hshort.
    unfold Py.range. rewrite diff_loop_raise by lia. reflexivity.
  - unfold period in Ew.
    destruct (0 <=? t - n); [discriminate|].
    unfold Py.getitem in Ew. cbn [Z.ltb Z.compare orb] in Ew.
    destruct (Py.len prices <=? 0); [cbn [bind] in Ew; congruence|].
    destruct (nth_error prices (Z.to_nat 0)); cbn [bind] in Ew; congruence.
Qed.

(** C10, as stated, fails: on [[5]] with [t = -1] and [n = 1] the padding
    branch builds the window [[5; 5]], every access is in bounds and the
    state [[sigmoid (5 - 5)]] is returned, although [t] is not within
    [0 .. len - 1].  Likewise with [t = 1] and [n = 0]: the slice
    [[5][1:2]] is empty, nothing is indexed and the empty row is returned. *)
Lemma bounds_not_exactly_valid_index :
  (period [5]%R (-1) 1 = Ok [5; 5]%R /\
   generate_price_state [5]%R (-1) 1 = Ok [[sigmoid (5 - 5)]] /\
   ~ (0 <= -1 <= Py.len [5]%R - 1)) /\
  (period [5]%R 1 0 = Ok [] /\
   generate_price_state [5]%R 1 0 = Ok [[]] /\
   ~ (0 <= 1 <= Py.len [5]%R - 1)).
Proof.
  split.
  - split; [reflexivity|]. split; [reflexivity|]. lia.
  - split; [reflexivity|]. split; [reflexivity|]. unfold Py.len; cbn; lia.
Qed.

(** C10, amended: on a non-empty series, [0 <= t <= len - 1] is sufficient
    for every access to be in bounds: the window then has exactly [n+1]
    elements, so [period[i]] and [period[i+1]] succeed for [0 <= i < n].
    If [t >= len] and [n >= 1] the window has fewer than [n+1] elements and
    the function raises an [IndexError].  For [t >= 0] and [n >= 1] the
    function returns exactly when [t <= len - 1]. *)
Theorem generate_price_state_index_bounds (stock_prices : list R) (t n : Z) :
  stock_prices <> [] ->
  (0 <= t <= Py.len stock_prices - 1 -> 0 <= n ->
   exists w,
     period stock_prices t n = Ok w /\
     Z.of_nat (length w) = n + 1 /\
     (forall i, 0 <= i < n ->
        exists a b, Py.getitem w (i + 1) = Ok a /\ Py.getitem w i = Ok b) /\
     exists state, generate_price_state stock_prices t n = Ok state) /\
  (Py.len stock_prices <= t -> 1 <= n ->
   (forall w, period stock_prices t n = Ok w -> Z.of_nat (length w) < n + 1) /\
   generate_price_state stock_prices t n = Raise IndexError) /\
  (0 <= t -> 1 <= n ->
   ((exists state, generate_price_state stock_prices t n = Ok state)
    <-> t <= Py.len stock_prices - 1)).
Proof.
  intros _. split; [|split].
  - intros Ht Hn.
    assert (Ht' : 0 <= t < Py.len stock_prices) by lia.
    pose proof (padded_window_length 0%R stock_prices t n Ht' Hn) as Hlen.
    exists (padded_window 0%R stock_prices t n).
    split; [apply period_valid; assumption|].
    split; [lia|]. split.
    + intros i Hi.
      exists (nth (Z.to_nat (i + 1)) (padded_window 0%R stock_prices t n) 0%R),
             (nth (Z.to_nat i) (padded_window 0%R stock_prices t n) 0%R).
      split.
      * rewrite <- (Z2Nat.id (i + 1)) at 1 by lia.
        apply getitem_inside. lia.
      * rewrite <- (Z2Nat.id i) at 1 by lia.
        apply getitem_inside. lia.
    + eexists. apply generate_price_state_valid; assumption.
  - intros Ht Hn. split.
    + intros w Ew.
      pose proof (period_too_short stock_prices w t n Ht Hn Ew). lia.
    + apply generate_price_state_past_end; assumption.
  - intros Ht Hn. split.
    + intros [state Hstate].
      destruct (Z.le_gt_cases (Py.len stock_prices) t) as [Hpast|Hin]; [|lia].
      rewrite generate_price_state_past_end in Hstate by assumption.
      discriminate.
    + intros Hin. eexists.
      apply generate_price_state_valid; lia.
Qed.

Lemma generate_price_state_index_bounds_witness :
  (exists w,
     period [2; 3; 5]%R 1 2 = Ok w /\
     Z.of_nat (length w) = 2 + 1 /\
     (forall i, 0 <= i < 2 ->
        exists a b, Py.getitem w (i + 1) = Ok a /\ Py.getitem w i = Ok b) /\
     exists state, generate_price_state [2; 3; 5]%R 1 2 = Ok state) /\
  ((forall w, period [2; 3; 5]%R 3 2 = Ok w -> Z.of_nat (length w) < 2 + 1) /\
   generate_price_state [2; 3; 5]%R 3 2 = Raise IndexError) /\
  ((exists state, generate_price_state [2; 3; 5]%R 1 2 = Ok state)
   <-> 1 <= Py.len [2; 3; 5]%R - 1).
Proof.
  destruct (generate_price_state_index_bounds [2; 3; 5]%R 1 2)
    as (Hin & _ & Hiff); [discriminate|].
  destruct (generate_price_state_index_bounds [2; 3; 5]%R 3 2)
    as (_ & Hpast & _); [discriminate|].
  split; [|split].
  - apply Hin; [unfold Py.len; cbn; lia|lia].
  - apply Hpast; [unfold Py.len; cbn; lia|lia].
  - apply Hiff; lia.
Defined.

(** ** Portfolio features *)

Lemma epsilon_value : epsilon = (1 / 1000000)%R.
Proof. unfold epsilon. lra. Qed.

Lemma epsilon_pos : (0 < epsilon)%R.
Proof. rewrite epsilon_value. lra. Qed.

Lemma log_defined (x : R) : (0 < x)%R -> Np.log x = Fin (ln x).
Proof.
  intros Hx. unfold Np.log.
  destruct (Rlt_dec 0 x) as [_|Hn]; [reflexivity|contradiction].
Qed.

(** C9: for a positive price and balance, [generate_portfolio_state] with
    [num_holding = 0] is well defined: its third feature is the logarithm of
    [0 + 1e-6], whose argument is strictly positive, so no feature is
    [-inf] or [nan]. *)
Theorem generate_portfolio_state_no_holding (stock_price balance : R) :
  (0 < stock_price)%R -> (0 < balance)%R ->
  generate_portfolio_state stock_price balance 0
  = [[Fin (ln stock_price); Fin (ln balance); Fin (ln (0 + 1 / 1000000))]]
  /\ (0 < 0 + 1 / 1000000)%R
  /\ Np.log (0 + epsilon) <> NegInf /\ Np.log (0 + epsilon) <> NaN.
Proof.
  intros Hp Hb. unfold generate_portfolio_state.
  pose proof epsilon_pos as He.
  rewrite !log_defined by lra.
  rewrite epsilon_value.
  repeat split; try lra; discriminate.
Qed.

Lemma generate_portfolio_state_no_holding_witness :
  generate_portfolio_state 10 1000 0
  = [[Fin (ln 10); Fin (ln 1000); Fin (ln (0 + 1 / 1000000))]]
  /\ (0 < 0 + 1 / 1000000)%R
  /\ Np.log (0 + epsilon) <> NegInf /\ Np.log (0 + epsilon) <> NaN.
Proof.
  apply (generate_portfolio_state_no_holding 10 1000); lra.
Defined.

(** Without the epsilon the third feature would not be a real number. *)
Lemma log_zero : Np.log 0 = NegInf.
Proof.
  unfold Np.log.
  destruct (Rlt_dec 0 0) as [H|_]; [lra|].
  destruct (Req_dec_T 0 0) as [_|H]; [reflexivity|lra].
Qed.

(** C6: on a non-empty series, at a valid index, for [balance > 0] and
    [num_holding >= 0], [generate_combined_state] returns one row of exactly
    [n+3] features: the [n] features of [generate_price_state] (same window
    and padding), then [log(stock_prices[t])], [log(balance)] and
    [log(num_holding + 1e-6)], in this order. *)
Theorem generate_combined_state_row (stock_prices : list R) (t n : Z)
  (balance num_holding : R) :
  stock_prices <> [] -> 0 <= t < Py.len stock_prices -> 0 <= n ->
  (0 < balance)%R -> (0 <= num_holding)%R ->
  exists diff row,
    generate_price_state stock_prices t n = Ok [diff] /\
    diff = squashed_differences (padded_window 0%R stock_prices t n) /\
    Z.of_nat (length diff) = n /\
    generate_combined_state t n stock_prices balance num_holding = Ok [row] /\
    row = map Fin diff
          ++ [Np.log (nth (Z.to_nat t) stock_prices 0%R);
              Fin (ln balance);
              Fin (ln (num_holding + 1 / 1000000))] /\
    Z.of_nat (length row) = n + 3.
Proof.
  intros _ Ht Hn Hb Hh.
  pose proof (padded_window_length 0%R stock_prices t n Ht Hn) as Hlen.
  pose proof epsilon_pos as He.
  assert (Hd : Z.of_nat (length (squashed_differences
                                   (padded_window 0%R stock_prices t n))) = n).
  { rewrite squashed_differences_length, Hlen. lia. }
  eexists. eexists.
  split; [apply generate_price_state_valid; assumption|].
  split; [reflexivity|].
  split; [exact Hd|].
  split; [|split; [reflexivity|]].
  - pose proof (generate_price_state_valid stock_prices t n Ht Hn) as Hgps.
    unfold generate_price_state in Hgps.
    unfold generate_combined_state.
    destruct (period stock_prices t n) as [w|e]; cbn [bind] in *; [|discriminate].
    destruct (diff_loop w (Py.range n) []) as [diff|e]; cbn [bind] in *;
      [|discriminate].
    injection Hgps as ->.
    rewrite <- (Z2Nat.id t) at 1 by lia.
    rewrite (getitem_inside stock_prices (Z.to_nat t) 0%R)
      by (unfold Py.len in Ht; lia).
    cbn [bind].
    rewrite (log_defined balance Hb).
    rewrite (log_defined (num_holding + epsilon)) by lra.
    rewrite epsilon_value. reflexivity.
  - rewrite length_app, length_map. cbn [length]. lia.
Qed.

Lemma generate_combined_state_row_witness :
  exists diff row,
    generate_price_state [1; 2; 4]%R 1 2 = Ok [diff] /\
    diff = squashed_differences (padded_window 0%R [1; 2; 4]%R 1 2) /\
    Z.of_nat (length diff) = 2 /\
    generate_combined_state 1 2 [1; 2; 4]%R 1000 0 = Ok [row] /\
    row = map Fin diff
          ++ [Np.log (nth (Z.to_nat 1) [1; 2; 4]%R 0%R);
              Fin (ln 1000);
              Fin (ln (0 + 1 / 1000000))] /\
    Z.of_nat (length row) = 2 + 3.
Proof.
  apply (generate_combined_state_row [1; 2; 4]%R 1 2 1000 0).
  - discriminate.
  - unfold Py.len; cbn; lia.
  - lia.
  - lra.
  - lra.
Defined.

(** * Performance metrics *)

Local Open Scope nat_scope.

Lemma first_maximizer_ext (f g : nat -> R) (len e : nat) :
  (forall j, j < len -> f j = g j) ->
  first_maximizer f len e -> first_maximizer g len e.
Proof.
  intros Hfg (He & Hmax & Hfirst). split; [exact He|]. split.
  - intros j Hj. rewrite <- (Hfg j Hj), <- (Hfg e He). auto.
  - intros j Hj. rewrite <- (Hfg j), <- (Hfg e He) by lia. auto.
Qed.

Lemma first_maximizer_unique (f : nat -> R) (len e e' : nat) :
  first_maximizer f len e -> first_maximizer f len e' -> e = e'.
Proof.
  intros (He & Hmax & Hfirst) (He' & Hmax' & Hfirst').
  destruct (Nat.lt_trichotomy e e') as [Hlt|[Heq|Hgt]]; [|exact Heq|].
  - specialize (Hfirst' e Hlt). specialize (Hmax e' He'). lra.
  - specialize (Hfirst e' Hgt). specialize (Hmax' e He). lra.
Qed.

(** *** np.argmax *)

Lemma argmax_from_spec (l : list R) :
  forall (a pre : list R) (best : R) (besti : nat),
    l = pre ++ a ->
    besti < length pre ->
    best = nth besti l 0%R ->
    (forall j, j < length pre -> (nth j l 0 <= best)%R) ->
    (forall j, j < besti -> (nth j l 0 < best)%R) ->
    exists e,
      Np.argmax_from best (Z.of_nat besti) (Z.of_nat (length pre)) a = Z.of_nat e
      /\ first_maximizer (fun j => nth j l 0%R) (length l) e.
Proof.
  induction a as [|x a IH]; intros pre best besti Hl Hbi Hbest Hmax Hfirst.
  - exists besti. rewrite app_nil_r in Hl. subst pre.
    split; [reflexivity|]. split; [exact Hbi|].
    rewrite <- Hbest. split; assumption.
  - assert (Hx : nth (length pre) l 0%R = x).
    { rewrite Hl, app_nth2, Nat.sub_diag by lia. reflexivity. }
    assert (Hl' : l = (pre ++ [x]) ++ a) by (rewrite <- app_assoc; exact Hl).
    assert (Hlen : (Z.of_nat (length pre) + 1)%Z = Z.of_nat (length (pre ++ [x])))
      by (rewrite length_app; cbn [length]; lia).
    cbn [Np.argmax_from]. rewrite Hlen.
    destruct (Rlt_dec best x) as [Hlt|Hge].
    + apply (IH (pre ++ [x]) x (length pre) Hl').
      * rewrite length_app; cbn [length]; lia.
      * symmetry; exact Hx.
      * intros j Hj. rewrite length_app in Hj; cbn [length] in Hj.
        destruct (Nat.eq_dec j (length pre)) as [->|Hne].
        -- rewrite Hx. lra.
        -- specialize (Hmax j ltac:(lia)). lra.
      * intros j Hj. specialize (Hmax j Hj). lra.
    + apply (IH (pre ++ [x]) best besti Hl').
      * rewrite length_app; cbn [length]; lia.
      * exact Hbest.
      * intros j Hj. rewrite length_app in Hj; cbn [length] in Hj.
        destruct (Nat.eq_dec j (length pre)) as [->|Hne].
        -- rewrite Hx. lra.
        -- apply Hmax. lia.
      * exact Hfirst.
Qed.

Lemma argmax_spec (l : list R) :
  l <> [] ->
  exists e,
    Np.argmax l = Ok (Z.of_nat e)
    /\ first_maximizer (fun j => nth j l 0%R) (length l) e.
Proof.
  destruct l as [|x a]; [congruence|]. intros _.
  destruct (argmax_from_spec (x :: a) a [x] x 0) as [e [He Hspec]];
    try reflexivity.
  - cbn; lia.
  - intros j Hj. cbn [length] in Hj. assert (j = 0) as -> by lia. cbn. lra.
  - intros j Hj. lia.
  - exists e. cbn [Np.argmax]. split; [|exact Hspec].
    f_equal. exact He.
Qed.

(** *** np.maximum.accumulate and the array difference *)

Lemma accumulate_from_length (a : list R) :
  forall m, length (Np.accumulate_from m a) = length a.
Proof.
  induction a as [|x a IH]; intros m; cbn; [reflexivity|].
  now rewrite IH.
Qed.

Lemma maximum_accumulate_length (a : list R) :
  length (Np.maximum_accumulate a) = length a.
Proof.
  destruct a as [|x a]; cbn; [reflexivity|].
  now rewrite accumulate_from_length.
Qed.

Lemma MaxRlist_cons (x : R) (l : list R) :
  l <> [] -> MaxRlist (x :: l) = Rmax x (MaxRlist l).
Proof. destruct l; [congruence|reflexivity]. Qed.

Lemma accumulate_from_nth (a : list R) :
  forall m i, i < length a ->
    nth i (Np.accumulate_from m a) 0%R = Rmax m (MaxRlist (firstn (S i) a)).
Proof.
  induction a as [|x a IH]; intros m i Hi; cbn [length] in Hi; [lia|].
  destruct i as [|i].
  - cbn. destruct a; reflexivity.
  - cbn [Np.accumulate_from nth]. rewrite IH by lia.
    change (firstn (S (S i)) (x :: a)) with (x :: firstn (S i) a).
    rewrite MaxRlist_cons, Rmax_assoc; [reflexivity|].
    destruct a; [cbn in Hi; lia|discriminate].
Qed.

Lemma maximum_accumulate_nth (a : list R) (i : nat) :
  i < length a ->
  nth i (Np.maximum_accumulate a) 0%R = MaxRlist (firstn (S i) a).
Proof.
  destruct a as [|x a]; cbn [length]; intros Hi; [lia|].
  destruct i as [|i].
  - cbn. destruct a; reflexivity.
  - cbn [Np.maximum_accumulate nth]. rewrite accumulate_from_nth by lia.
    change (firstn (S (S i)) (x :: a)) with (x :: firstn (S i) a).
    rewrite MaxRlist_cons; [reflexivity|].
    destruct a; [cbn in Hi; lia|discriminate].
Qed.

Lemma sub_length (a b : list R) :
  length a = length b -> length (Np.sub a b) = length a.
Proof.
  intros Hab. unfold Np.sub. rewrite length_map, length_combine. lia.
Qed.

Lemma sub_nth (a b : list R) (i : nat) :
  length a = length b -> i < length a ->
  nth i (Np.sub a b) 0%R = (nth i a 0 - nth i b 0)%R.
Proof.
  intros Hab Hi. unfold Np.sub.
  set (f := fun p : R * R => (fst p - snd p)%R).
  rewrite (nth_indep _ 0%R (f (0%R, 0%R)))
    by (rewrite length_map, length_combine; lia).
  rewrite map_nth, combine_nth by exact Hab. reflexivity.
Qed.

Lemma drops_length (values : list R) :
  length (Np.sub (Np.maximum_accumulate values) values) = length values.
Proof.
  rewrite sub_length; apply maximum_accumulate_length.
Qed.

Lemma drops_nth (values : list R) (i : nat) :
  i < length values ->
  nth i (Np.sub (Np.maximum_accumulate values) values) 0%R
  = drawdown_at values i.
Proof.
  intros Hi. unfold drawdown_at.
  rewrite sub_nth, maximum_accumulate_nth;
    rewrite ?maximum_accumulate_length; auto.
Qed.

(** *** maximum_drawdown *)

Lemma slice_prefix {A : Type} (l : list A) (e : nat) :
  e <= length l -> Py.slice l 0 (Z.of_nat e) = firstn e l.
Proof.
  intros He. rewrite slice_inside by (unfold Py.len; lia).
  cbn [Z.to_nat skipn]. f_equal. lia.
Qed.

(** What [maximum_drawdown] computes on a non-empty sequence: the trough
    [e] is the first index with the largest drop; the result is 0 when
    [e = 0], and otherwise measured against the peak [b], the first index
    of the largest value before [e]. *)
Lemma maximum_drawdown_spec (values : list R) :
  values <> [] ->
  exists e,
    first_maximizer (drawdown_at values) (length values) e /\
    (e = 0 -> maximum_drawdown values = Ok 0%R) /\
    (e <> 0 ->
     exists b,
       first_maximizer (fun j => nth j values 0%R) e b /\
       maximum_drawdown values
       = Py.truediv (nth e values 0 - nth b values 0)%R (nth b values 0%R)).
Proof.
  intros Hne.
  assert (Hlen : 0 < length values) by (destruct values; [congruence|cbn; lia]).
  destruct (argmax_spec (Np.sub (Np.maximum_accumulate values) values))
    as [e [He Hspec]].
  { intros Hnil. apply (f_equal (@length R)) in Hnil.
    rewrite drops_length in Hnil. cbn in Hnil. lia. }
  rewrite drops_length in Hspec.
  apply (first_maximizer_ext _ (drawdown_at values)) in Hspec;
    [|intros j Hj; apply drops_nth; exact Hj].
  exists e. split; [exact Hspec|].
  destruct Hspec as (Helen & _ & _).
  unfold maximum_drawdown. rewrite He. cbn [bind].
  split.
  - intros ->. reflexivity.
  - intros He0.
    destruct (Z.eqb_spec (Z.of_nat e) 0%Z) as [Hz|_]; [lia|].
    rewrite slice_prefix by lia.
    destruct (argmax_spec (firstn e values)) as [b [Hb Hbspec]].
    { intros Hnil. apply (f_equal (@length R)) in Hnil.
      rewrite length_firstn in Hnil. cbn in Hnil. lia. }
    rewrite length_firstn, Nat.min_l in Hbspec by lia.
    apply (first_maximizer_ext _ (fun j => nth j values 0%R)) in Hbspec.
    2:{ intros j Hj. rewrite nth_firstn.
        destruct (Nat.ltb_spec j e); [reflexivity|lia]. }
    exists b. split; [exact Hbspec|].
    destruct Hbspec as (Hbe & _ & _).
    rewrite Hb. cbn [bind].
    rewrite (getitem_inside values e 0%R) by lia.
    rewrite (getitem_inside values b 0%R) by lia.
    reflexivity.
Qed.

Lemma drawdown_at_0 (values : list R) :
  values <> [] -> drawdown_at values 0 = 0%R.
Proof.
  destruct values as [|x l]; [congruence|]. intros _.
  unfold drawdown_at. cbn [firstn MaxRlist nth]. lra.
Qed.

(** A positive drop at [e] means a strictly larger value before [e]. *)
Lemma drawdown_peak_before (values : list R) (e : nat) :
  e < length values -> (0 < drawdown_at values e)%R ->
  exists j, j < e /\ (nth e values 0 < nth j values 0)%R.
Proof.
  intros He Hpos. unfold drawdown_at in Hpos.
  assert (Hin : In (MaxRlist (firstn (S e) values)) (firstn (S e) values)).
  { apply MaxRlist_P2. exists (nth 0 (firstn (S e) values) 0%R).
    apply nth_In. rewrite length_firstn. lia. }
  apply (In_nth _ _ 0%R) in Hin. destruct Hin as [j [Hj Hnth]].
  rewrite length_firstn in Hj.
  rewrite nth_firstn in Hnth.
  destruct (Nat.ltb_spec j (S e)) as [_|Hbad]; [|lia].
  exists j. split.
  - destruct (Nat.eq_dec j e) as [->|Hne]; [lra|lia].
  - lra.
Qed.

(** C3, as stated, fails: on [[0; -1]] the trough is index 1 and the peak
    before it is the value 0 at index 0, and the function does not return a
    quotient: the division raises a [ZeroDivisionError]. *)
Lemma maximum_drawdown_zero_peak_raises :
  first_maximizer (drawdown_at [0; -1]%R) 2 1 /\
  first_maximizer (fun j => nth j [0; -1]%R 0%R) 1 0 /\
  maximum_drawdown [0; -1]%R = Raise ZeroDivisionError.
Proof.
  assert (Hm : Rmax 0 (-1) = 0%R) by (apply Rmax_left; lra).
  assert (Hd : first_maximizer (drawdown_at [0; -1]%R) 2 1).
  { split; [lia|].
    assert (H0 : drawdown_at [0; -1]%R 0 = 0%R)
      by (unfold drawdown_at; cbn [firstn MaxRlist nth]; lra).
    assert (H1 : drawdown_at [0; -1]%R 1 = 1%R)
      by (unfold drawdown_at; cbn [firstn MaxRlist nth]; rewrite Hm; lra).
    split; intros j Hj; rewrite H1;
      (destruct j as [|[|j]]; [rewrite H0|rewrite H1|lia]); lra || lia. }
  assert (Hb : first_maximizer (fun j => nth j [0; -1]%R 0%R) 1 0).
  { split; [lia|]. split; intros j Hj; [|lia].
    destruct j as [|j]; [cbn [nth]; lra|lia]. }
  split; [exact Hd|]. split; [exact Hb|].
  destruct (maximum_drawdown_spec [0; -1]%R) as [e (He & _ & Hpos)];
    [discriminate|].
  cbn [length] in He.
  pose proof (first_maximizer_unique _ _ _ _ He Hd) as ->.
  destruct (Hpos ltac:(lia)) as [b [Hb' ->]].
  pose proof (first_maximizer_unique _ _ _ _ Hb' Hb) as ->.
  cbn [nth]. unfold Py.truediv.
  destruct (Req_dec_T 0 0) as [_|Hz]; [reflexivity|lra].
Qed.

(** C3, amended: on a non-empty sequence [maximum_drawdown] takes for [e]
    the first index maximizing [runningMax(values)[i] - values[i]]; it
    returns 0 when [e = 0]; otherwise, with [b] the first index of the
    largest value among [values[0 .. e-1]], it returns
    [(values[e] - values[b]) / values[b]] when [values[b]] is not 0, and
    raises a [ZeroDivisionError] when [values[b]] is 0.  On
    [[100; 150; 50]] the result is [(50 - 150) / 150 = -2/3], with the peak
    at index 1 and the trough at index 2. *)
Theorem maximum_drawdown_peak_to_trough :
  (forall values : list R,
     values <> [] ->
     exists e,
       first_maximizer (drawdown_at values) (length values) e /\
       (e = 0 -> maximum_drawdown values = Ok 0%R) /\
       (e <> 0 ->
        exists b,
          first_maximizer (fun j => nth j values 0%R) e b /\
          (nth b values 0%R <> 0%R ->
           maximum_drawdown values
           = Ok ((nth e values 0 - nth b values 0) / nth b values 0)%R) /\
          (nth b values 0%R = 0%R ->
           maximum_drawdown values = Raise ZeroDivisionError))) /\
  first_maximizer (drawdown_at [100; 150; 50]%R) 3 2 /\
  first_maximizer (fun j => nth j [100; 150; 50]%R 0%R) 2 1 /\
  maximum_drawdown [100; 150; 50]%R = Ok ((50 - 150) / 150)%R /\
  ((50 - 150) / 150 = - 2 / 3)%R.
Proof.
  split.
  { intros values Hne.
    destruct (maximum_drawdown_spec values Hne) as [e (He & Hzero & Hdrop)].
    exists e. split; [exact He|]. split; [exact Hzero|].
    intros He0. destruct (Hdrop He0) as [b [Hb Hmd]].
    exists b. split; [exact Hb|].
    rewrite Hmd. unfold Py.truediv.
    destruct (Req_dec_T (nth b values 0%R) 0) as [Hz|Hz];
      split; intros H; congruence. }
  assert (Hm1 : Rmax 100 150 = 150%R) by (apply Rmax_right; lra).
  assert (Hm2 : Rmax 100 (Rmax 150 50) = 150%R).
  { rewrite (Rmax_left 150 50) by lra. exact Hm1. }
  assert (Hd : first_maximizer (drawdown_at [100; 150; 50]%R) 3 2).
  { split; [lia|].
    assert (H0 : drawdown_at [100; 150; 50]%R 0 = 0%R)
      by (unfold drawdown_at; cbn [firstn MaxRlist nth]; lra).
    assert (H1 : drawdown_at [100; 150; 50]%R 1 = 0%R).
    { unfold drawdown_at. cbn [firstn MaxRlist nth]. rewrite Hm1. lra. }
    assert (H2 : drawdown_at [100; 150; 50]%R 2 = 100%R).
    { unfold drawdown_at. cbn [firstn MaxRlist nth]. rewrite Hm2. lra. }
    split; intros j Hj; rewrite H2;
      (destruct j as [|[|[|j]]]; [rewrite H0|rewrite H1|rewrite H2|lia]); lra || lia. }
  assert (Hb : first_maximizer (fun j => nth j [100; 150; 50]%R 0%R) 2 1).
  { split; [lia|].
    split; intros j Hj; (destruct j as [|[|j]]; [| |lia]);
      cbn [nth]; lra || lia. }
  split; [exact Hd|]. split; [exact Hb|]. split; [|lra].
  destruct (maximum_drawdown_spec [100; 150; 50]%R) as [e (He & _ & Hpos)];
    [discriminate|].
  cbn [length] in He.
  pose proof (first_maximizer_unique _ _ _ _ He Hd) as ->.
  destruct (Hpos ltac:(lia)) as [b [Hb' ->]].
  pose proof (first_maximizer_unique _ _ _ _ Hb' Hb) as ->.
  cbn [nth]. unfold Py.truediv.
  destruct (Req_dec_T 150 0) as [Hz|_]; [lra|reflexivity].
Qed.

Lemma running_max_of_increasing (values : list R) (i : nat) :
  strictly_increasing values -> i < length values ->
  MaxRlist (firstn (S i) values) = nth i values 0%R.
Proof.
  intros Hinc Hi. apply Rle_antisym.
  - assert (Hin : In (MaxRlist (firstn (S i) values)) (firstn (S i) values)).
    { apply MaxRlist_P2. exists (nth 0 (firstn (S i) values) 0%R).
      apply nth_In. rewrite length_firstn. lia. }
    apply (In_nth _ _ 0%R) in Hin. destruct Hin as [j [Hj Hnth]].
    rewrite length_firstn in Hj. rewrite nth_firstn in Hnth.
    destruct (Nat.ltb_spec j (S i)) as [_|Hbad]; [|lia].
    rewrite <- Hnth.
    destruct (Nat.eq_dec j i) as [->|Hne]; [lra|].
    apply Rlt_le, Hinc; lia.
  - apply MaxRlist_P1.
    replace (nth i values 0%R) with (nth i (firstn (S i) values) 0%R).
    + apply nth_In. rewrite length_firstn. lia.
    + rewrite nth_firstn. destruct (Nat.ltb_spec i (S i)); [reflexivity|lia].
Qed.

(** C7: on a strictly increasing non-empty sequence, such as
    [[100; 110; 120; 130]], [maximum_drawdown] returns 0. *)
Theorem maximum_drawdown_increasing (values : list R) :
  values <> [] -> strictly_increasing values ->
  maximum_drawdown values = Ok 0%R.
Proof.
  intros Hne Hinc.
  destruct (maximum_drawdown_spec values Hne) as [e (He & Hzero & _)].
  apply Hzero.
  destruct He as (Helen & _ & Hfirst).
  destruct e as [|e]; [reflexivity|exfalso].
  specialize (Hfirst 0 ltac:(lia)).
  unfold drawdown_at in Hfirst.
  rewrite !running_max_of_increasing in Hfirst by (assumption || lia).
  lra.
Qed.

Lemma maximum_drawdown_increasing_witness :
  maximum_drawdown [100; 110; 120; 130]%R = Ok 0%R.
Proof.
  apply (maximum_drawdown_increasing [100; 110; 120; 130]%R).
  - discriminate.
  - intros i j Hij Hj. cbn [length] in Hj.
    destruct i as [|[|[|i]]]; destruct j as [|[|[|[|j]]]];
      try lia; cbn [nth]; lra.
Defined.

(** C8: on a non-empty sequence of strictly positive values,
    [maximum_drawdown] returns a number that is negative or zero. *)
Theorem maximum_drawdown_nonpositive (values : list R) :
  values <> [] -> Forall (fun v => 0 < v)%R values ->
  exists r, maximum_drawdown values = Ok r /\ (r <= 0)%R.
Proof.
  intros Hne Hpos.
  destruct (maximum_drawdown_spec values Hne) as [e (He & Hzero & Hdrop)].
  destruct (Nat.eq_dec e 0) as [He0|He0].
  - exists 0%R. split; [apply Hzero; exact He0|lra].
  - destruct (Hdrop He0) as [b [Hb Hmd]].
    destruct He as (Helen & _ & Hfirst).
    destruct Hb as (Hbe & Hbmax & _).
    specialize (Hfirst 0 ltac:(lia)).
    rewrite drawdown_at_0 in Hfirst by exact Hne.
    destruct (drawdown_peak_before values e Helen Hfirst) as [j [Hj Hlt]].
    specialize (Hbmax j Hj). cbv beta in Hbmax.
    assert (Hvb : (0 < nth b values 0)%R).
    { rewrite Forall_forall in Hpos. apply Hpos, nth_In. lia. }
    exists ((nth e values 0 - nth b values 0) / nth b values 0)%R.
    split.
    + rewrite Hmd. unfold Py.truediv.
      destruct (Req_dec_T (nth b values 0%R) 0) as [Hz|_]; [lra|reflexivity].
    + apply Rlt_le. apply Rmult_neg_pos; [lra|].
      apply Rinv_0_lt_compat. exact Hvb.
Qed.

Lemma maximum_drawdown_nonpositive_witness :
  exists r, maximum_drawdown [100; 150; 50]%R = Ok r /\ (r <= 0)%R.
Proof.
  apply (maximum_drawdown_nonpositive [100; 150; 50]%R).
  - discriminate.
  - repeat constructor; lra.
Defined.

(** ** The Sharpe ratio *)

Lemma sum_repeat_from (y : R) (k : nat) :
  forall acc, fold_left Rplus (repeat y k) acc = (acc + INR k * y)%R.
Proof.
  induction k as [|k IH]; intros acc.
  - cbn. lra.
  - cbn [repeat fold_left]. rewrite IH, S_INR. lra.
Qed.

Lemma mean_repeat (y : R) (k : nat) : 0 < k -> Np.mean (repeat y k) = y.
Proof.
  intros Hk. unfold Np.mean, Np.sum.
  rewrite sum_repeat_from, repeat_length.
  assert (HINR : (0 < INR k)%R) by (apply lt_0_INR; exact Hk).
  field. lra.
Qed.

Lemma std_repeat (y : R) (k : nat) : 0 < k -> Np.std (repeat y k) = 0%R.
Proof.
  intros Hk. unfold Np.std.
  rewrite mean_repeat, map_repeat, mean_repeat by exact Hk.
  replace (y - y)%R with 0%R by lra.
  rewrite Rabs_R0. replace (0 ^ 2)%R with 0%R by lra.
  apply sqrt_0.
Qed.

Lemma all_equal_repeat (c : R) (l : list R) :
  Forall (eq c) l -> l = repeat c (length l).
Proof.
  induction 1 as [|x l Hx _ IH]; cbn; [reflexivity|].
  now rewrite <- Hx, <- IH.
Qed.

Lemma std_excess_all_equal (c rf : R) (l : list R) :
  l <> [] -> Forall (eq c) l ->
  Np.std (map (fun x => x - rf)%R l) = 0%R.
Proof.
  intros Hne Hall. rewrite (all_equal_repeat c l Hall), map_repeat.
  apply std_repeat. destruct l; [congruence|cbn; lia].
Qed.

(** C2, amended: on a non-empty return sequence [sharpe_ratio_custom]
    takes the daily risk-free rate [r = (1 + 0.0275)^(1/365) - 1], forms the
    excess returns, and returns exactly 0 if their standard deviation is
    exactly zero or their mean is exactly zero; otherwise it returns
    [mean(excess)/std(excess)].  Over the real numbers a sequence of
    all-equal returns yields exactly 0, whatever the risk-free rate; in
    binary64 the example [[0.001; 0.001; 0.001]] yields 0 as well.  (In
    binary64 all-equal returns need not yield 0: the rounded mean of equal
    values can differ from them in the last place.) *)
Theorem sharpe_ratio_custom_policy (return_rates : list R) :
  return_rates <> [] ->
  let r := (Rpower (1 + 0.0275) (1 / 365) - 1)%R in
  let excess := map (fun x => x - r)%R return_rates in
  daily_treasury_bond_return_rate = r /\
  (Np.std excess = 0%R \/ Np.mean excess = 0%R ->
   sharpe_ratio_custom return_rates = Fin 0) /\
  (Np.std excess <> 0%R -> Np.mean excess <> 0%R ->
   sharpe_ratio_custom return_rates = Fin (Np.mean excess / Np.std excess)) /\
  (forall c, Forall (eq c) return_rates ->
     sharpe_ratio_custom return_rates = Fin 0) /\
  (forall c rf, Forall (eq c) return_rates ->
     Np.std (map (fun x => x - rf)%R return_rates) = 0%R) /\
  B64.sharpe_ratio_custom [B64.d0_001; B64.d0_001; B64.d0_001] = PrimFloat.zero.
Proof.
  intros Hne r excess.
  assert (Hr : daily_treasury_bond_return_rate = r).
  { unfold daily_treasury_bond_return_rate, r. do 2 f_equal. lra. }
  assert (Hzero : Np.std excess = 0%R \/ Np.mean excess = 0%R ->
                  sharpe_ratio_custom return_rates = Fin 0).
  { intros Hcase. unfold sharpe_ratio_custom. rewrite Hr. fold excess.
    destruct return_rates as [|x l]; [congruence|].
    destruct (Req_dec_T (Np.std excess) 0) as [_|Hs]; [reflexivity|].
    destruct (Req_dec_T (Np.mean excess) 0) as [_|Hm]; [reflexivity|].
    destruct Hcase; contradiction. }
  split; [exact Hr|]. split; [exact Hzero|]. split; [|split; [|split]].
  - intros Hs Hm. unfold sharpe_ratio_custom. rewrite Hr. fold excess.
    destruct return_rates as [|x l]; [congruence|].
    destruct (Req_dec_T (Np.std excess) 0) as [Hs'|_]; [contradiction|].
    destruct (Req_dec_T (Np.mean excess) 0) as [Hm'|_]; [contradiction|].
    reflexivity.
  - intros c Hall. apply Hzero. left.
    apply (std_excess_all_equal c r return_rates Hne Hall).
  - intros c rf Hall.
    apply (std_excess_all_equal c rf return_rates Hne Hall).
  - reflexivity.
Qed.

Lemma sharpe_ratio_custom_policy_witness :
  sharpe_ratio_custom [0.001; 0.001; 0.001]%R = Fin 0.
Proof.
  destruct (sharpe_ratio_custom_policy [0.001; 0.001; 0.001]%R)
    as (_ & _ & _ & Hconst & _).
  - discriminate.
  - apply (Hconst 0.001%R). repeat constructor.
Defined.

(** * Further properties of the state encoders *)

Local Open Scope Z_scope.

Lemma sigmoid_0 : sigmoid 0 = (1 / 2)%R.
Proof. unfold sigmoid, Np.exp. rewrite Ropp_0, exp_0. lra. Qed.

Lemma sigmoid_increasing (x y : R) : (x < y)%R -> (sigmoid x < sigmoid y)%R.
Proof.
  intros Hxy. unfold sigmoid, Np.exp.
  pose proof (exp_pos (- x)) as Hx. pose proof (exp_pos (- y)) as Hy.
  assert (He : (Rtrigo_def.exp (- y) < Rtrigo_def.exp (- x))%R)
    by (apply exp_increasing; lra).
  unfold Rdiv. rewrite !Rmult_1_l.
  apply Rinv_lt_contravar; [|lra].
  apply Rmult_lt_0_compat; lra.
Qed.

(** X1: the logistic function is symmetric about its midpoint:
    [sigmoid (-x) = 1 - sigmoid x], and [sigmoid 0 = 1/2]. *)
Theorem sigmoid_symmetry (x : R) :
  sigmoid (- x) = (1 - sigmoid x)%R /\ sigmoid 0 = (1 / 2)%R.
Proof.
  split; [|exact sigmoid_0].
  unfold sigmoid, Np.exp. rewrite Ropp_involutive, exp_Ropp.
  pose proof (exp_pos x) as Hx.
  assert (Hi : (0 < / Rtrigo_def.exp x)%R) by (apply Rinv_0_lt_compat; exact Hx).
  set (e := Rtrigo_def.exp x) in *.
  assert (H1 : (1 + / e = (e + 1) / e)%R) by (field; lra).
  rewrite H1. field. lra.
Qed.

Lemma sigmoid_above_half (x : R) : (1 / 2 < sigmoid x)%R <-> (0 < x)%R.
Proof.
  rewrite <- sigmoid_0. split.
  - intros H. destruct (Rlt_le_dec 0 x) as [Hx|Hx]; [exact Hx|exfalso].
    destruct Hx as [Hx|Hx].
    + apply sigmoid_increasing in Hx. lra.
    + rewrite Hx in H. lra.
  - apply sigmoid_increasing.
Qed.

Lemma sigmoid_below_half (x : R) : (sigmoid x < 1 / 2)%R <-> (x < 0)%R.
Proof.
  rewrite <- sigmoid_0. split.
  - intros H. destruct (Rlt_le_dec x 0) as [Hx|Hx]; [exact Hx|exfalso].
    destruct Hx as [Hx|Hx].
    + apply sigmoid_increasing in Hx. lra.
    + rewrite <- Hx in H. lra.
  - apply sigmoid_increasing.
Qed.

Lemma sigmoid_half (x : R) : sigmoid x = (1 / 2)%R <-> x = 0%R.
Proof.
  rewrite <- sigmoid_0. split.
  - apply sigmoid_injective.
  - intros ->. reflexivity.
Qed.

Lemma price_state_feature (stock_prices : list R) (t n i : Z) :
  0 <= t < Py.len stock_prices -> 0 <= i < n ->
  nth (Z.to_nat i) (squashed_differences (padded_window 0%R stock_prices t n)) 0%R
  = sigmoid (window_price stock_prices t n (i + 1)
             - window_price stock_prices t n i)%R.
Proof.
  intros Ht Hi. assert (Hn : 0 <= n) by lia.
  rewrite squashed_differences_nth
    by (rewrite padded_window_length by assumption; lia).
  rewrite !padded_window_nth by (try assumption; lia).
  unfold window_price. do 4 f_equal; lia.
Qed.

(** X2: over the real numbers, at a valid index, feature [i] of the price
    state tells the direction of the move between the two prices it
    compares: above 1/2 exactly when the price rose, below 1/2 exactly when
    it fell, equal to 1/2 exactly when it did not change. *)
Theorem price_state_feature_direction (stock_prices : list R) (t n i : Z) :
  0 <= t < Py.len stock_prices -> 0 <= i < n ->
  exists row,
    generate_price_state stock_prices t n = Ok [row] /\
    let before := window_price stock_prices t n i in
    let after := window_price stock_prices t n (i + 1) in
    ((1 / 2 < nth (Z.to_nat i) row 0)%R <-> (before < after)%R) /\
    ((nth (Z.to_nat i) row 0 < 1 / 2)%R <-> (after < before)%R) /\
    (nth (Z.to_nat i) row 0%R = (1 / 2)%R <-> before = after).
Proof.
  intros Ht Hi.
  exists (squashed_differences (padded_window 0%R stock_prices t n)).
  split; [apply generate_price_state_valid; lia|].
  cbv zeta. rewrite price_state_feature by assumption.
  rewrite sigmoid_above_half, sigmoid_below_half, sigmoid_half.
  repeat split; intros; lra.
Qed.

Lemma price_state_feature_direction_witness :
  exists row,
    generate_price_state [1; 2; 4]%R 2 2 = Ok [row] /\
    let before := window_price [1; 2; 4]%R 2 2 1 in
    let after := window_price [1; 2; 4]%R 2 2 (1 + 1) in
    ((1 / 2 < nth (Z.to_nat 1) row 0)%R <-> (before < after)%R) /\
    ((nth (Z.to_nat 1) row 0 < 1 / 2)%R <-> (after < before)%R) /\
    (nth (Z.to_nat 1) row 0%R = (1 / 2)%R <-> before = after).
Proof.
  apply (price_state_feature_direction [1; 2; 4]%R 2 2 1).
  - unfold Py.len; cbn; lia.
  - lia.
Defined.

(** X3: near the start of the series, [0 <= t < n], the first [n - t]
    features, those that compare padded entries, are exactly 1/2. *)
Theorem price_state_padding_features (stock_prices : list R) (t n : Z) :
  0 <= t < Py.len stock_prices -> t < n ->
  exists row,
    generate_price_state stock_prices t n = Ok [row] /\
    forall i, 0 <= i < n - t -> nth (Z.to_nat i) row 0%R = (1 / 2)%R.
Proof.
  intros Ht Hn.
  exists (squashed_differences (padded_window 0%R stock_prices t n)).
  split; [apply generate_price_state_valid; lia|].
  intros i Hi. rewrite price_state_feature by lia.
  apply sigmoid_half. unfold window_price.
  replace (Z.max 0 (t - n + (i + 1))) with 0 by lia.
  replace (Z.max 0 (t - n + i)) with 0 by lia. lra.
Qed.

Lemma price_state_padding_features_witness :
  exists row,
    generate_price_state [3; 1; 4]%R 1 3 = Ok [row] /\
    forall i, 0 <= i < 3 - 1 -> nth (Z.to_nat i) row 0%R = (1 / 2)%R.
Proof.
  apply (price_state_padding_features [3; 1; 4]%R 1 3).
  - unfold Py.len; cbn; lia.
  - lia.
Defined.

(** ** Mapping over the series *)

Section MapFacts.
Context {A B : Type} (f : A -> B).

Lemma getitem_map (l : list A) (i : Z) :
  Py.getitem (map f l) i = (x <- Py.getitem l i ;; Ok (f x)).
Proof.
  unfold Py.getitem, Py.len. rewrite length_map.
  destruct ((_ <? 0) || (_ <=? _)); [reflexivity|].
  rewrite nth_error_map.
  destruct (nth_error l _); reflexivity.
Qed.

Lemma slice_map (l : list A) (a b : Z) :
  Py.slice (map f l) a b = map f (Py.slice l a b).
Proof.
  unfold Py.slice, Py.clamp, Py.len. rewrite length_map.
  now rewrite skipn_map, firstn_map.
Qed.

Lemma period_map (l : list A) (t n : Z) :
  period (map f l) t n = (p <- period l t n ;; Ok (map f p)).
Proof.
  unfold period. destruct (0 <=? t - n); cbn [bind].
  - now rewrite slice_map.
  - rewrite getitem_map.
    destruct (Py.getitem l 0) as [p0|e]; cbn [bind]; [|reflexivity].
    rewrite slice_map, map_app, !repeat_list_singleton, map_repeat.
    reflexivity.
Qed.
End MapFacts.

Lemma sigmoid_shift (a b c : R) :
  sigmoid ((a + c) - (b + c)) = sigmoid (a - b).
Proof. f_equal. lra. Qed.

Lemma diff_loop_shift (c : R) (p : list R) (idx : list Z) :
  forall acc,
    diff_loop (map (fun x => x + c)%R p) idx acc = diff_loop p idx acc.
Proof.
  induction idx as [|i idx IH]; intros acc; [reflexivity|].
  cbn [diff_loop]. rewrite !getitem_map.
  destruct (Py.getitem p (i + 1)) as [a|e]; cbn [bind]; [|reflexivity].
  destruct (Py.getitem p i) as [b|e]; cbn [bind]; [|reflexivity].
  rewrite sigmoid_shift. apply IH.
Qed.

(** X4: over the real numbers the price state depends on price differences
    only: adding one constant to every price changes nothing, neither the
    features nor an [IndexError], for every [t] and [n]. *)
Theorem price_state_shift_invariant (stock_prices : list R) (c : R) (t n : Z) :
  generate_price_state (map (fun p => p + c)%R stock_prices) t n
  = generate_price_state stock_prices t n.
Proof.
  unfold generate_price_state. rewrite period_map.
  destruct (period stock_prices t n) as [p|e]; cbn [bind]; [|reflexivity].
  now rewrite diff_loop_shift.
Qed.

(** ** Edge inputs of the encoders *)

(** X5: on an empty series both encoders raise an [IndexError] for every
    window length [n >= 1], whatever [t] is. *)
Theorem encoders_empty_series (t n : Z) (balance num_holding : R) :
  1 <= n ->
  generate_price_state [] t n = Raise IndexError /\
  generate_combined_state t n [] balance num_holding = Raise IndexError.
Proof.
  intros Hn.
  assert (Hloop : (p <- period (@nil R) t n ;; diff_loop p (Py.range n) [])
                  = Raise IndexError).
  { unfold period. destruct (0 <=? t - n); cbn [bind].
    - assert (Hs : Py.slice (@nil R) (t - n) (t + 1) = []).
      { unfold Py.slice. now rewrite skipn_nil, firstn_nil. }
      rewrite Hs. unfold Py.range.
      apply diff_loop_raise; cbn [length]; lia.
    - reflexivity. }
  unfold generate_price_state, generate_combined_state.
  destruct (period (@nil R) t n) as [p|e]; cbn [bind] in *.
  - rewrite Hloop. split; reflexivity.
  - injection Hloop as ->. split; reflexivity.
Qed.

Lemma encoders_empty_series_witness :
  generate_price_state [] 0 1 = Raise IndexError /\
  generate_combined_state 0 1 [] 1000 0 = Raise IndexError.
Proof. apply (encoders_empty_series 0 1 1000 0). lia. Defined.

Lemma map_seq_constant {A : Type} (f : nat -> A) (v : A) (k a : nat) :
  (forall i, (a <= i < a + k)%nat -> f i = v) ->
  map f (seq a k) = repeat v k.
Proof.
  revert a. induction k as [|k IH]; intros a Hf; [reflexivity|].
  cbn [seq map repeat]. rewrite (Hf a) by lia. f_equal.
  apply IH. intros i Hi. apply Hf. lia.
Qed.

(** X6: a negative [t] is not rejected: on a non-empty series the padding
    branch fills the whole window with the first price, and the state is
    [n] features all equal to 1/2. *)
Theorem price_state_negative_index (stock_prices : list R) (t n : Z) :
  stock_prices <> [] -> t < 0 -> 0 <= n ->
  generate_price_state stock_prices t n
  = Ok [repeat (1 / 2)%R (Z.to_nat n)].
Proof.
  intros Hne Ht Hn. unfold generate_price_state, period.
  destruct (Z.leb_spec 0 (t - n)) as [Hs|_]; [lia|].
  destruct stock_prices as [|p0 rest]; [congruence|].
  change (Py.getitem (p0 :: rest) 0) with (Ok p0). cbn [bind].
  rewrite repeat_list_singleton. unfold Py.range.
  set (tail := Py.slice (p0 :: rest) 0 (t + 1)).
  rewrite diff_loop_run
    by (right; rewrite length_app, repeat_length; lia).
  cbn [app bind]. do 2 f_equal.
  apply map_seq_constant. intros i Hi.
  rewrite !app_nth1 by (rewrite repeat_length; lia).
  rewrite !nth_repeat_lt by lia.
  replace (p0 - p0)%R with 0%R by lra. apply sigmoid_0.
Qed.

Lemma price_state_negative_index_witness :
  generate_price_state [3; 1; 4]%R (-2) 2 = Ok [repeat (1 / 2)%R (Z.to_nat 2)].
Proof.
  apply (price_state_negative_index [3; 1; 4]%R (-2) 2).
  - discriminate.
  - lia.
  - lia.
Defined.

(** X7: with a window length [n <= 0] the loop does not run: on a
    non-empty series the state is one empty row for every [t]. *)
Theorem price_state_no_window (stock_prices : list R) (t n : Z) :
  stock_prices <> [] -> n <= 0 ->
  generate_price_state stock_prices t n = Ok [[]].
Proof.
  intros Hne Hn. unfold generate_price_state, period, Py.range.
  replace (Z.to_nat n) with 0%nat by lia.
  destruct (0 <=? t - n); cbn [bind seq map diff_loop]; [reflexivity|].
  destruct stock_prices as [|p0 rest]; [congruence|].
  reflexivity.
Qed.

Lemma price_state_no_window_witness :
  generate_price_state [3; 1; 4]%R 7 0 = Ok [[]].
Proof.
  apply (price_state_no_window [3; 1; 4]%R 7 0).
  - discriminate.
  - lia.
Defined.

(** X8: the combined state is the price state followed by the portfolio
    state of the price at [t]: the features and the errors of
    [generate_combined_state] are those of [generate_price_state], then of
    the access [stock_prices[t]], for all inputs. *)
Theorem combined_state_composition (t n : Z) (stock_prices : list R)
  (balance num_holding : R) :
  generate_combined_state t n stock_prices balance num_holding
  = (state <- generate_price_state stock_prices t n ;;
     pt <- Py.getitem stock_prices t ;;
     Ok [map Fin (concat state)
         ++ concat (generate_portfolio_state pt balance num_holding)]).
Proof.
  unfold generate_combined_state, generate_price_state, generate_portfolio_state.
  destruct (period stock_prices t n) as [p|e]; cbn [bind]; [|reflexivity].
  destruct (diff_loop p (Py.range n) []) as [diff|e]; cbn [bind]; [|reflexivity].
  destruct (Py.getitem stock_prices t) as [pt|e]; cbn [bind]; [|reflexivity].
  cbn [concat]. now rewrite !app_nil_r.
Qed.

Lemma log_finite_iff (x : R) : (exists v, Np.log x = Fin v) <-> (0 < x)%R.
Proof.
  split.
  - intros [v Hv]. unfold Np.log in Hv.
    destruct (Rlt_dec 0 x) as [Hx|_]; [exact Hx|].
    destruct (Req_dec_T x 0); discriminate.
  - intros Hx. exists (ln x). apply log_defined, Hx.
Qed.

(** X9: the three features of [generate_portfolio_state] are all real
    numbers exactly when the price and the balance are positive and
    [num_holding] is above [-1e-6]; otherwise one of them is [-inf] or
    [nan]. *)
Theorem portfolio_state_finite_iff (stock_price balance num_holding : R) :
  (exists a b c,
     generate_portfolio_state stock_price balance num_holding
     = [[Fin a; Fin b; Fin c]])
  <-> (0 < stock_price /\ 0 < balance /\ - (1 / 1000000) < num_holding)%R.
Proof.
  unfold generate_portfolio_state. split.
  - intros (a & b & c & H). injection H as Ha Hb Hc.
    assert (H1 : (0 < stock_price)%R) by (apply log_finite_iff; eauto).
    assert (H2 : (0 < balance)%R) by (apply log_finite_iff; eauto).
    assert (H3 : (0 < num_holding + epsilon)%R) by (apply log_finite_iff; eauto).
    rewrite epsilon_value in H3. lra.
  - intros (H1 & H2 & H3).
    exists (ln stock_price), (ln balance), (ln (num_holding + epsilon)).
    rewrite !log_defined; [reflexivity| |assumption|assumption].
    rewrite epsilon_value. lra.
Qed.

(** * softmax *)

Lemma sum_from (a : list R) :
  forall acc, fold_left Rplus a acc = (acc + Np.sum a)%R.
Proof.
  unfold Np.sum. induction a as [|x a IH]; intros acc; cbn [fold_left].
  - lra.
  - rewrite IH, (IH (0 + x)%R). lra.
Qed.

Lemma sum_cons (x : R) (a : list R) : Np.sum (x :: a) = (x + Np.sum a)%R.
Proof. unfold Np.sum at 1. cbn [fold_left]. rewrite sum_from. lra. Qed.

Lemma sum_nil : Np.sum [] = 0%R.
Proof. reflexivity. Qed.

Lemma sum_map_scale (k : R) (a : list R) :
  Np.sum (map (fun v => v * k)%R a) = (Np.sum a * k)%R.
Proof.
  induction a as [|x a IH]; cbn [map].
  - rewrite sum_nil. lra.
  - rewrite !sum_cons, IH. lra.
Qed.

Lemma sum_nonneg (a : list R) :
  Forall (fun v => 0 <= v)%R a -> (0 <= Np.sum a)%R.
Proof.
  induction 1 as [|x a Hx _ IH]; [rewrite sum_nil; lra|].
  rewrite sum_cons. lra.
Qed.

Lemma sum_bounds_member (a : list R) (v : R) :
  Forall (fun v => 0 <= v)%R a -> In v a -> (v <= Np.sum a)%R.
Proof.
  induction 1 as [|x a Hx Ha IH]; intros Hin; [contradiction|].
  rewrite sum_cons. pose proof (sum_nonneg a Ha) as Hs.
  destruct Hin as [->|Hin]; [lra|].
  specialize (IH Hin). lra.
Qed.

Lemma exps_positive (x : list R) : Forall (fun v => 0 < v)%R (map Np.exp x).
Proof.
  apply Forall_forall. intros v Hv. apply in_map_iff in Hv.
  destruct Hv as [y [<- _]]. apply exp_pos.
Qed.

Lemma exps_nonneg (x : list R) : Forall (fun v => 0 <= v)%R (map Np.exp x).
Proof.
  eapply Forall_impl; [|apply exps_positive]. intros v Hv. cbv beta in *. lra.
Qed.

Lemma sum_exps_positive (x : list R) :
  x <> [] -> (0 < Np.sum (map Np.exp x))%R.
Proof.
  destruct x as [|y x]; [congruence|]. intros _.
  cbn [map]. rewrite sum_cons.
  pose proof (exp_pos y). pose proof (sum_nonneg _ (exps_nonneg x)).
  unfold Np.exp at 1. lra.
Qed.

(** X10: the outputs of [softmax] on a non-empty array sum to 1. *)
Theorem softmax_sums_to_one (x : list R) :
  x <> [] -> Np.sum (softmax x) = 1%R.
Proof.
  intros Hne. unfold softmax. cbv zeta.
  pose proof (sum_exps_positive x Hne) as Hs.
  unfold Rdiv. rewrite sum_map_scale. field. lra.
Qed.

Lemma softmax_sums_to_one_witness :
  Np.sum (softmax [1; 2; 3]%R) = 1%R.
Proof. apply (softmax_sums_to_one [1; 2; 3]%R). discriminate. Defined.

(** X11: [softmax] keeps the length of its input, and every output is
    positive and at most 1. *)
Theorem softmax_bounds (x : list R) :
  length (softmax x) = length x /\
  Forall (fun v => 0 < v <= 1)%R (softmax x).
Proof.
  unfold softmax. cbv zeta. split; [now rewrite !length_map|].
  apply Forall_forall. intros v Hv.
  apply in_map_iff in Hv. destruct Hv as [e [<- He]].
  assert (Hne : x <> []) by (destruct x; [contradiction|discriminate]).
  pose proof (sum_exps_positive x Hne) as Hs.
  pose proof (sum_bounds_member _ e (exps_nonneg x) He) as Hle.
  pose proof (exps_positive x) as Hpos.
  rewrite Forall_forall in Hpos. specialize (Hpos e He). cbv beta in Hpos.
  split.
  - apply Rdiv_lt_0_compat; assumption.
  - apply (Rmult_le_reg_r (Np.sum (map Np.exp x))); [exact Hs|].
    unfold Rdiv. rewrite Rmult_assoc, Rinv_l by lra. lra.
Qed.

(** X12: [softmax] does not change when one constant is added to every
    input. *)
Theorem softmax_shift_invariant (x : list R) (c : R) :
  softmax (map (fun v => v + c)%R x) = softmax x.
Proof.
  destruct x as [|y x]; [reflexivity|].
  set (l := y :: x).
  assert (Hs : (0 < Np.sum (map Np.exp l))%R)
    by (apply sum_exps_positive; discriminate).
  unfold softmax. cbv zeta.
  assert (He : map Np.exp (map (fun v => v + c)%R l)
               = map (fun v => v * Np.exp c)%R (map Np.exp l)).
  { rewrite !map_map. apply map_ext. intros v. unfold Np.exp. apply exp_plus. }
  rewrite He, sum_map_scale, map_map.
  apply map_ext. intros v.
  assert (Hc : (0 < Np.exp c)%R) by apply exp_pos.
  set (s := Np.sum (map Np.exp l)) in *. set (k := Np.exp c) in *.
  cbv beta. field. split; lra.
Qed.

(** X13: over the real numbers [softmax] keeps the order of its inputs: one
    output is at most another exactly when this holds of the inputs. *)
Theorem softmax_order (x : list R) (i j : nat) :
  (i < length x)%nat -> (j < length x)%nat ->
  ((nth i (softmax x) 0 <= nth j (softmax x) 0)%R
   <-> (nth i x 0 <= nth j x 0)%R).
Proof.
  intros Hi Hj.
  assert (Hne : x <> []) by (destruct x; [cbn in Hi; lia|discriminate]).
  pose proof (sum_exps_positive x Hne) as Hs.
  assert (Hnth : forall k, (k < length x)%nat ->
            nth k (softmax x) 0%R
            = (Rtrigo_def.exp (nth k x 0) / Np.sum (map Np.exp x))%R).
  { intros k Hk. unfold softmax. cbv zeta.
    set (g := fun v : R => (v / Np.sum (map Np.exp x))%R).
    rewrite (nth_indep _ 0%R (g (Np.exp 0))) by (now rewrite !length_map).
    rewrite map_map.
    change (g (Np.exp 0)) with ((fun v => g (Np.exp v)) 0%R).
    rewrite map_nth. reflexivity. }
  rewrite (Hnth i Hi), (Hnth j Hj).
  set (s := Np.sum (map Np.exp x)) in *.
  assert (Hinv : (0 < / s)%R) by (apply Rinv_0_lt_compat; exact Hs).
  unfold Rdiv. split.
  - intros H. apply Rmult_le_reg_r in H; [|exact Hinv].
    destruct (Rle_lt_dec (nth i x 0%R) (nth j x 0%R)) as [Hle|Hlt]; [exact Hle|].
    apply exp_increasing in Hlt. lra.
  - intros [Hlt|Heq].
    + apply Rmult_le_compat_r; [lra|].
      apply Rlt_le, exp_increasing, Hlt.
    + rewrite Heq. lra.
Qed.

Lemma softmax_order_witness :
  (nth 0 (softmax [1; 3; 2]%R) 0 <= nth 2 (softmax [1; 3; 2]%R) 0)%R
  <-> (nth 0 [1; 3; 2]%R 0 <= nth 2 [1; 3; 2]%R 0)%R.
Proof.
  apply (softmax_order [1; 3; 2]%R 0 2); cbn; lia.
Defined.

(** * Further properties of the metrics *)

(** X14: the daily risk-free rate is positive, below the annual rate, and
    compounds back to it: [(1 + r)^365 = 1 + 2.75/100]. *)
Theorem daily_rate_compounds :
  (0 < daily_treasury_bond_return_rate < 2.75 / 100)%R /\
  ((1 + daily_treasury_bond_return_rate) ^ 365 = 1 + 2.75 / 100)%R.
Proof.
  unfold daily_treasury_bond_return_rate. cbv zeta.
  set (a := (1 + 2.75 / 100)%R).
  assert (Ha : (1 < a)%R) by (unfold a; lra).
  assert (Hlow : (1 < Rpower a (1 / 365))%R).
  { rewrite <- (Rpower_O a) at 1 by lra. apply Rpower_lt; lra. }
  assert (Hhigh : (Rpower a (1 / 365) < a)%R).
  { rewrite <- (Rpower_1 a) at 2 by lra. apply Rpower_lt; lra. }
  split; [unfold a in *; lra|].
  replace (1 + (Rpower a (1 / 365) - 1))%R with (Rpower a (1 / 365)) by lra.
  rewrite <- Rpower_pow by (apply exp_pos).
  rewrite Rpower_mult.
  replace (1 / 365 * INR 365)%R with 1%R.
  - apply Rpower_1. lra.
  - rewrite INR_IZR_INZ. cbn [Z.of_nat Pos.of_succ_nat Pos.succ]. field.
Qed.

Lemma sum_map_minus (c : R) (l : list R) :
  Np.sum (map (fun x => x - c)%R l) = (Np.sum l - INR (length l) * c)%R.
Proof.
  induction l as [|x l IH]; cbn [map length].
  - rewrite sum_nil. cbn. lra.
  - rewrite !sum_cons, IH, S_INR. lra.
Qed.

Lemma mean_excess (c : R) (l : list R) :
  l <> [] -> Np.mean (map (fun x => x - c)%R l) = (Np.mean l - c)%R.
Proof.
  intros Hne. unfold Np.mean. rewrite sum_map_minus, length_map.
  assert (Hn : (0 < INR (length l))%R).
  { apply lt_0_INR. destruct l; [congruence|cbn; lia]. }
  field. lra.
Qed.




Lemma sum_zero_members (a : list R) :
  Forall (fun v => 0 <= v)%R a -> Np.sum a = 0%R -> Forall (eq 0%R) a.
Proof.
  intros Hpos Hsum. apply Forall_forall. intros v Hv.
  pose proof (sum_bounds_member a v Hpos Hv) as Hle.
  rewrite Forall_forall in Hpos. specialize (Hpos v Hv). cbv beta in Hpos. lra.
Qed.

Lemma std_zero_all_equal (l : list R) :
  l <> [] -> Np.std l = 0%R -> Forall (eq (Np.mean l)) l.
Proof.
  intros Hne Hstd. unfold Np.std in Hstd.
  set (m := Np.mean l) in *.
  set (sq := map (fun x => (Rabs (x - m) ^ 2)%R) l) in *.
  assert (Hn : (0 < INR (length l))%R).
  { apply lt_0_INR. destruct l; [congruence|cbn; lia]. }
  assert (Hsq : Forall (fun v => 0 <= v)%R sq).
  { apply Forall_forall. intros v Hv. apply in_map_iff in Hv.
    destruct Hv as [x [<- _]]. apply pow2_ge_0. }
  assert (Hmean : Np.mean sq = 0%R).
  { apply sqrt_eq_0; [|exact Hstd].
    unfold Np.mean. apply Rmult_le_pos; [apply sum_nonneg; exact Hsq|].
    unfold sq. rewrite length_map. apply Rlt_le, Rinv_0_lt_compat, Hn. }
  assert (Hsum : Np.sum sq = 0%R).
  { unfold Np.mean in Hmean. unfold sq in Hmean at 2.
    rewrite length_map in Hmean.
    apply (Rmult_eq_compat_r (INR (length l))) in Hmean.
    unfold Rdiv in Hmean. rewrite Rmult_assoc, Rinv_l, Rmult_0_l in Hmean; lra. }
  pose proof (sum_zero_members sq Hsq Hsum) as Hall.
  apply Forall_forall. intros x Hx.
  rewrite Forall_forall in Hall.
  assert (Hz : 0%R = (Rabs (x - m) ^ 2)%R).
  { apply Hall. unfold sq. apply in_map_iff. exists x. split; [reflexivity|exact Hx]. }
  assert (Habs : Rabs (x - m) = 0%R).
  { destruct (Req_dec (Rabs (x - m)) 0) as [H|H]; [exact H|].
    pose proof (pow_nonzero _ 2 H). lra. }
  destruct (Req_dec (x - m) 0) as [H|H]; [lra|].
  apply Rabs_no_R0 in H. contradiction.
Qed.

(** X16: on a non-empty sequence the ratio is exactly 0 in two cases only:
    all returns are equal, or their mean is exactly the daily risk-free
    rate. *)
Theorem sharpe_ratio_zero_iff (return_rates : list R) :
  return_rates <> [] ->
  (sharpe_ratio_custom return_rates = Fin 0
   <-> ((exists c, Forall (eq c) return_rates)
        \/ Np.mean return_rates = daily_treasury_bond_return_rate)).
Proof.
  intros Hne.
  set (r := daily_treasury_bond_return_rate).
  set (excess := map (fun x => (x - r)%R) return_rates).
  pose proof (mean_excess r return_rates Hne) as Hmean. fold excess in Hmean.
  assert (Hex : excess <> []).
  { unfold excess. destruct return_rates; [congruence|discriminate]. }
  assert (Hval : sharpe_ratio_custom return_rates
                 = if Req_dec_T (Np.std excess) 0 then Fin 0
                   else if Req_dec_T (Np.mean excess) 0 then Fin 0
                   else Fin (Np.mean excess / Np.std excess)).
  { unfold sharpe_ratio_custom. destruct return_rates; [congruence|reflexivity]. }
  rewrite Hval. split.
  - intros H.
    destruct (Req_dec_T (Np.std excess) 0) as [Hs|Hs].
    + left. exists (Np.mean excess + r)%R.
      pose proof (std_zero_all_equal excess Hex Hs) as Hall.
      unfold excess in Hall at 2. rewrite Forall_map in Hall.
      eapply Forall_impl; [|exact Hall]. intros x Hx. cbv beta in Hx. lra.
    + destruct (Req_dec_T (Np.mean excess) 0) as [Hm|Hm]; [right; lra|].
      exfalso. injection H as H.
      apply (Rmult_eq_compat_r (Np.std excess)) in H.
      unfold Rdiv in H. rewrite Rmult_assoc, Rinv_l, Rmult_0_l in H; lra.
  - intros [[c Hall]|Hm].
    + pose proof (std_excess_all_equal c r return_rates Hne Hall) as Hs.
      fold excess in Hs.
      destruct (Req_dec_T (Np.std excess) 0); [reflexivity|contradiction].
    + destruct (Req_dec_T (Np.std excess) 0); [reflexivity|].
      destruct (Req_dec_T (Np.mean excess) 0) as [_|Hm']; [reflexivity|].
      exfalso. apply Hm'. lra.
Qed.

Lemma sharpe_ratio_zero_iff_witness :
  sharpe_ratio_custom [0.01; 0.01]%R = Fin 0
  <-> ((exists c, Forall (eq c) [0.01; 0.01]%R)
       \/ Np.mean [0.01; 0.01]%R = daily_treasury_bond_return_rate).
Proof. apply (sharpe_ratio_zero_iff [0.01; 0.01]%R). discriminate. Defined.

(** ** Further properties of maximum_drawdown *)

Local Open Scope nat_scope.

Lemma running_max_attained (values : list R) (i : nat) :
  i < length values ->
  exists j, j <= i /\ MaxRlist (firstn (S i) values) = nth j values 0%R.
Proof.
  intros Hi.
  assert (Hin : In (MaxRlist (firstn (S i) values)) (firstn (S i) values)).
  { apply MaxRlist_P2. exists (nth 0 (firstn (S i) values) 0%R).
    apply nth_In. rewrite length_firstn. lia. }
  apply (In_nth _ _ 0%R) in Hin. destruct Hin as [j [Hj Hnth]].
  rewrite length_firstn in Hj. rewrite nth_firstn in Hnth.
  destruct (Nat.ltb_spec j (S i)) as [_|Hbad]; [|lia].
  exists j. split; [lia|symmetry; exact Hnth].
Qed.

Lemma running_max_bounds (values : list R) (i j : nat) :
  j <= i -> i < length values ->
  (nth j values 0 <= MaxRlist (firstn (S i) values))%R.
Proof.
  intros Hj Hi. apply MaxRlist_P1.
  replace (nth j values 0%R) with (nth j (firstn (S i) values) 0%R).
  - apply nth_In. rewrite length_firstn. lia.
  - rewrite nth_firstn. destruct (Nat.ltb_spec j (S i)); [reflexivity|lia].
Qed.

(** The peak chosen before a trough [e <> 0] is the running maximum at the
    trough, and it is strictly above the value at the trough. *)
Lemma peak_is_running_max (values : list R) (e b : nat) :
  values <> [] ->
  first_maximizer (drawdown_at values) (length values) e -> e <> 0 ->
  first_maximizer (fun j => nth j values 0%R) e b ->
  nth b values 0%R = MaxRlist (firstn (S e) values)
  /\ (nth e values 0 < nth b values 0)%R.
Proof.
  intros Hne (Helen & _ & Hfirst) He0 (Hbe & Hbmax & _).
  specialize (Hfirst 0 ltac:(lia)).
  rewrite drawdown_at_0 in Hfirst by exact Hne.
  unfold drawdown_at in Hfirst.
  destruct (running_max_attained values e Helen) as [j [Hj Hmax]].
  pose proof (running_max_bounds values e b ltac:(lia) Helen) as Hb.
  assert (Hje : j < e).
  { destruct (Nat.eq_dec j e) as [->|Hn]; [lra|lia]. }
  specialize (Hbmax j Hje). cbv beta in Hbmax.
  split; lra.
Qed.

(** X17: over the real numbers, on a non-empty sequence of strictly
    positive values the result lies in [(-1, 0]]: the loss is less than the
    whole peak value. *)
Theorem maximum_drawdown_range (values : list R) :
  values <> [] -> Forall (fun v => 0 < v)%R values ->
  exists d, maximum_drawdown values = Ok d /\ (-1 < d <= 0)%R.
Proof.
  intros Hne Hpos. rewrite Forall_forall in Hpos.
  destruct (maximum_drawdown_spec values Hne) as [e (He & Hzero & Hdrop)].
  destruct (Nat.eq_dec e 0) as [He0|He0].
  - exists 0%R. split; [apply Hzero; exact He0|lra].
  - destruct (Hdrop He0) as [b [Hb Hmd]].
    destruct (peak_is_running_max values e b Hne He He0 Hb) as [_ Hlt].
    assert (Hve : (0 < nth e values 0)%R).
    { apply Hpos, nth_In. destruct He as (Helen & _). exact Helen. }
    assert (Hvb : (0 < nth b values 0)%R) by lra.
    exists ((nth e values 0 - nth b values 0) / nth b values 0)%R.
    split.
    + rewrite Hmd. unfold Py.truediv.
      destruct (Req_dec_T (nth b values 0%R) 0) as [Hz|_]; [lra|reflexivity].
    + assert (Hinv : (0 < / nth b values 0)%R) by (apply Rinv_0_lt_compat, Hvb).
      replace ((nth e values 0 - nth b values 0) / nth b values 0)%R
        with (nth e values 0 * / nth b values 0 - 1)%R by (field; lra).
      pose proof (Rmult_lt_0_compat _ _ Hve Hinv) as Hq.
      assert (Hq1 : (nth e values 0 * / nth b values 0 < 1)%R).
      { rewrite <- (Rinv_r (nth b values 0%R)) by lra.
        apply Rmult_lt_compat_r; assumption. }
      lra.
Qed.

Lemma maximum_drawdown_range_witness :
  exists d, maximum_drawdown [100; 150; 50]%R = Ok d /\ (-1 < d <= 0)%R.
Proof.
  apply (maximum_drawdown_range [100; 150; 50]%R).
  - discriminate.
  - repeat constructor; lra.
Defined.

(** X18: over the real numbers, on a non-empty sequence of strictly
    positive values the result, multiplied by the running maximum at the
    trough, is minus the largest drop below the running maximum: the
    function reports the largest absolute drop as a fraction of its peak. *)
Theorem maximum_drawdown_largest_drop (values : list R) :
  values <> [] -> Forall (fun v => 0 < v)%R values ->
  exists d e,
    maximum_drawdown values = Ok d /\
    first_maximizer (drawdown_at values) (length values) e /\
    (d * MaxRlist (firstn (S e) values) = - drawdown_at values e)%R.
Proof.
  intros Hne Hpos. rewrite Forall_forall in Hpos.
  destruct (maximum_drawdown_spec values Hne) as [e (He & Hzero & Hdrop)].
  destruct (Nat.eq_dec e 0) as [He0|He0].
  - exists 0%R, e. split; [apply Hzero; exact He0|]. split; [exact He|].
    subst e. rewrite drawdown_at_0 by exact Hne. lra.
  - destruct (Hdrop He0) as [b [Hb Hmd]].
    destruct (peak_is_running_max values e b Hne He He0 Hb) as [Hpeak Hlt].
    assert (Hvb : (0 < nth b values 0)%R).
    { apply Hpos, nth_In. destruct He as (Helen & _), Hb as (Hbe & _). lia. }
    exists ((nth e values 0 - nth b values 0) / nth b values 0)%R, e.
    split; [|split; [exact He|]].
    + rewrite Hmd. unfold Py.truediv.
      destruct (Req_dec_T (nth b values 0%R) 0) as [Hz|_]; [lra|reflexivity].
    + unfold drawdown_at. rewrite <- Hpeak. field. lra.
Qed.

Lemma maximum_drawdown_largest_drop_witness :
  exists d e,
    maximum_drawdown [100; 150; 50]%R = Ok d /\
    first_maximizer (drawdown_at [100; 150; 50]%R) (length [100; 150; 50]%R) e /\
    (d * MaxRlist (firstn (S e) [100; 150; 50]%R)
     = - drawdown_at [100; 150; 50]%R e)%R.
Proof.
  apply (maximum_drawdown_largest_drop [100; 150; 50]%R).
  - discriminate.
  - repeat constructor; lra.
Defined.

Lemma running_max_of_nondecreasing (values : list R) (i : nat) :
  nondecreasing values -> i < length values ->
  MaxRlist (firstn (S i) values) = nth i values 0%R.
Proof.
  intros Hmono Hi. apply Rle_antisym.
  - destruct (running_max_attained values i Hi) as [j [Hj ->]].
    apply Hmono; assumption.
  - apply running_max_bounds; [lia|exact Hi].
Qed.

(** X19: on a non-empty sequence the result is 0 exactly when the sequence
    never falls; as soon as some value is below an earlier one the result is
    not 0. *)
Theorem maximum_drawdown_zero_iff (values : list R) :
  values <> [] ->
  (maximum_drawdown values = Ok 0%R <-> nondecreasing values).
Proof.
  intros Hne.
  destruct (maximum_drawdown_spec values Hne) as [e (He & Hzero & Hdrop)].
  split.
  - intros Hmd.
    assert (He0 : e = 0).
    { destruct (Nat.eq_dec e 0) as [H|H]; [exact H|exfalso].
      destruct (Hdrop H) as [b [Hb Hval]].
      destruct (peak_is_running_max values e b Hne He H Hb) as [_ Hlt].
      rewrite Hval in Hmd. unfold Py.truediv in Hmd.
      destruct (Req_dec_T (nth b values 0%R) 0) as [Hz|Hz]; [discriminate|].
      injection Hmd as Hmd.
      apply (Rmult_eq_compat_r (nth b values 0%R)) in Hmd.
      unfold Rdiv in Hmd. rewrite Rmult_assoc, Rinv_l, Rmult_0_l in Hmd; lra. }
    subst e. destruct He as (_ & Hmax & _).
    intros i j Hij Hj.
    specialize (Hmax j Hj).
    rewrite drawdown_at_0 in Hmax by exact Hne. unfold drawdown_at in Hmax.
    pose proof (running_max_bounds values j i Hij Hj). lra.
  - intros Hmono. apply Hzero.
    destruct He as (Helen & _ & Hfirst).
    destruct e as [|e]; [reflexivity|exfalso].
    specialize (Hfirst 0 ltac:(lia)).
    unfold drawdown_at in Hfirst.
    rewrite !running_max_of_nondecreasing in Hfirst by (assumption || lia).
    lra.
Qed.

Lemma maximum_drawdown_zero_iff_witness :
  maximum_drawdown [100; 100; 120]%R = Ok 0%R <-> nondecreasing [100; 100; 120]%R.
Proof. apply (maximum_drawdown_zero_iff [100; 100; 120]%R). discriminate. Defined.

(** *** Change of unit *)

Section Scaling.
Variable c : R.
Hypothesis Hc : (0 < c)%R.

Let scale (l : list R) : list R := map (fun v => c * v)%R l.

Lemma accumulate_from_scale (a : list R) :
  forall m,
    Np.accumulate_from (c * m) (scale a) = scale (Np.accumulate_from m a).
Proof.
  induction a as [|x a IH]; intros m; [reflexivity|].
  cbn [scale map Np.accumulate_from] in *.
  rewrite RmaxRmult by lra. now rewrite IH.
Qed.

Lemma maximum_accumulate_scale (a : list R) :
  Np.maximum_accumulate (scale a) = scale (Np.maximum_accumulate a).
Proof.
  destruct a as [|x a]; [reflexivity|].
  cbn [scale map Np.maximum_accumulate].
  f_equal. apply accumulate_from_scale.
Qed.

Lemma sub_scale (a b : list R) :
  Np.sub (scale a) (scale b) = scale (Np.sub a b).
Proof.
  unfold Np.sub, scale. revert b.
  induction a as [|x a IH]; intros [|y b]; try reflexivity.
  cbn [map combine fst snd]. rewrite IH. f_equal. lra.
Qed.

Lemma argmax_from_scale (a : list R) :
  forall best besti i,
    Np.argmax_from (c * best) besti i (scale a) = Np.argmax_from best besti i a.
Proof.
  induction a as [|x a IH]; intros best besti i; [reflexivity|].
  cbn [scale map Np.argmax_from] in *.
  destruct (Rlt_dec (c * best) (c * x)) as [H|H];
    destruct (Rlt_dec best x) as [H'|H']; try apply IH.
  - exfalso. apply H'. apply (Rmult_lt_reg_l c); assumption.
  - exfalso. apply H. apply Rmult_lt_compat_l; assumption.
Qed.

Lemma argmax_scale (a : list R) : Np.argmax (scale a) = Np.argmax a.
Proof.
  destruct a as [|x a]; [reflexivity|].
  cbn [scale map Np.argmax]. f_equal. apply argmax_from_scale.
Qed.

Lemma truediv_scale (a b : R) :
  Py.truediv (c * a - c * b) (c * b) = Py.truediv (a - b) b.
Proof.
  unfold Py.truediv.
  destruct (Req_dec_T (c * b) 0) as [H|H]; destruct (Req_dec_T b 0) as [H'|H'].
  - reflexivity.
  - exfalso. apply Rmult_integral in H. destruct H; lra.
  - exfalso. apply H. rewrite H'. lra.
  - f_equal. field. lra.
Qed.

(** X20: over the real numbers the result does not depend on the unit of
    the values: multiplying every value by one positive constant leaves the
    result, or the exception, unchanged. *)
Theorem maximum_drawdown_scale_invariant (portfolio_values : list R) :
  maximum_drawdown (map (fun v => c * v)%R portfolio_values)
  = maximum_drawdown portfolio_values.
Proof.
  fold (scale portfolio_values). unfold maximum_drawdown.
  rewrite maximum_accumulate_scale, sub_scale, argmax_scale.
  destruct (Np.argmax _) as [e|err]; cbn [bind]; [|reflexivity].
  destruct (e =? 0)%Z; [reflexivity|].
  unfold scale at 1. rewrite slice_map. fold (scale (Py.slice portfolio_values 0 e)).
  rewrite argmax_scale.
  destruct (Np.argmax _) as [b|err]; cbn [bind]; [|reflexivity].
  unfold scale. rewrite !getitem_map.
  destruct (Py.getitem portfolio_values e) as [ve|err]; cbn [bind]; [|reflexivity].
  destruct (Py.getitem portfolio_values b) as [vb|err]; cbn [bind]; [|reflexivity].
  apply truediv_scale.
Qed.
End Scaling.

Lemma maximum_drawdown_scale_invariant_witness :
  maximum_drawdown (map (fun v => 2 * v)%R [100; 150; 50]%R)
  = maximum_drawdown [100; 150; 50]%R.
Proof. apply (maximum_drawdown_scale_invariant 2). lra. Defined.

(** X21: over the real numbers the trough is chosen by the largest absolute
    drop, so the result need not be the largest fractional loss.  On
    [[x; y; M; M - d]] with [0 < y < x < M] and [x - y < d < M] the result
    is [-d/M], also when the earlier fall from [x] to [y] is the larger
    fraction. *)
Theorem maximum_drawdown_absolute_trough (x y M d : R) :
  (0 < y < x)%R -> (x < M)%R -> (x - y < d < M)%R ->
  maximum_drawdown [x; y; M; M - d]%R = Ok (- d / M)%R /\
  ((d * x < (x - y) * M)%R -> ((y - x) / x < - d / M)%R).
Proof.
  intros Hy HM Hd.
  set (values := [x; y; M; (M - d)%R]).
  assert (Hr1 : Rmax x y = x) by (apply Rmax_left; lra).
  assert (Hr2 : Rmax y M = M) by (apply Rmax_right; lra).
  assert (Hr3 : Rmax x M = M) by (apply Rmax_right; lra).
  assert (Hr4 : Rmax M (M - d) = M) by (apply Rmax_left; lra).
  assert (H0 : drawdown_at values 0 = 0%R)
    by (unfold drawdown_at; cbn [values firstn MaxRlist nth]; lra).
  assert (H1 : drawdown_at values 1 = (x - y)%R)
    by (unfold drawdown_at; cbn [values firstn MaxRlist nth]; rewrite Hr1; lra).
  assert (H2 : drawdown_at values 2 = 0%R).
  { unfold drawdown_at; cbn [values firstn MaxRlist nth].
    rewrite Hr2, Hr3. lra. }
  assert (H3 : drawdown_at values 3 = d).
  { unfold drawdown_at; cbn [values firstn MaxRlist nth].
    rewrite Hr4, Hr2, Hr3. lra. }
  assert (Hd3 : first_maximizer (drawdown_at values) 4 3).
  { split; [lia|].
    split; intros j Hj; rewrite H3;
      (destruct j as [|[|[|[|j]]]];
       [rewrite H0|rewrite H1|rewrite H2|rewrite H3|lia]); lra || lia. }
  assert (Hb2 : first_maximizer (fun j => nth j values 0%R) 3 2).
  { split; [lia|].
    split; intros j Hj; (destruct j as [|[|[|j]]]; [| | |lia]);
      cbn [values nth]; lra || lia. }
  split.
  - destruct (maximum_drawdown_spec values) as [e (He & _ & Hdrop)];
      [discriminate|].
    change (length values) with 4 in He.
    pose proof (first_maximizer_unique _ _ _ _ He Hd3) as ->.
    destruct (Hdrop ltac:(lia)) as [b [Hb ->]].
    pose proof (first_maximizer_unique _ _ _ _ Hb Hb2) as ->.
    cbn [values nth]. unfold Py.truediv.
    destruct (Req_dec_T M 0) as [Hz|_]; [lra|].
    f_equal. field. lra.
  - intros Hfrac.
    apply (Rmult_lt_reg_r (x * M)); [apply Rmult_lt_0_compat; lra|].
    replace ((y - x) / x * (x * M))%R with ((y - x) * M)%R by (field; lra).
    replace (- d / M * (x * M))%R with (- d * x)%R by (field; lra).
    lra.
Qed.

Lemma maximum_drawdown_absolute_trough_witness :
  maximum_drawdown [10; 5; 1000; 1000 - 100]%R = Ok (- 100 / 1000)%R /\
  ((100 * 10 < (10 - 5) * 1000)%R -> ((5 - 10) / 10 < - 100 / 1000)%R).
Proof.
  apply (maximum_drawdown_absolute_trough 10 5 1000 100); lra.
Defined.

(** * The buy-and-hold benchmark *)

Local Open Scope Z_scope.









(** * Reading close prices *)

Lemma str_split_nonempty (sep : ascii) (s : string) : str_split sep s <> [].
Proof.
  destruct s as [|c s]; cbn [str_split]; [discriminate|].
  destruct (Ascii.eqb c sep); [discriminate|].
  destruct (str_split sep s); discriminate.
Qed.

Lemma str_split_length (sep : ascii) (s : string) :
  length (str_split sep s) = S (count_char sep s).
Proof.
  induction s as [|c s IH]; [reflexivity|].
  cbn [str_split count_char].
  destruct (Ascii.eqb c sep); cbn [length Nat.add]; [now rewrite IH|].
  destruct (str_split sep s) as [|h fields] eqn:E;
    [now apply str_split_nonempty in E|].
  cbn [length] in *. exact IH.
Qed.

Lemma str_join_split (sep : ascii) (s : string) :
  str_join sep (str_split sep s) = s.
Proof.
  induction s as [|c s IH]; [reflexivity|].
  cbn [str_split].
  destruct (Ascii.eqb_spec c sep) as [->|Hne].
  - pose proof (str_split_nonempty sep s) as Hs.
    destruct (str_split sep s) as [|h fields]; [congruence|].
    cbn [str_join String.append] in *. now rewrite IH.
  - pose proof (str_split_nonempty sep s) as Hs.
    destruct (str_split sep s) as [|h fields]; [congruence|].
    destruct fields as [|h' fields]; cbn [str_join String.append] in *;
      now rewrite IH.
Qed.

Section ClosePricesFacts.
Variable float : string -> result R.

Lemma getitem_field (fields : list string) :
  Py.getitem fields 4
  = match nth_error fields 4 with
    | Some field => Ok field
    | None => Raise IndexError
    end.
Proof.
  unfold Py.getitem, Py.len. cbn [Z.ltb Z.compare orb].
  destruct (Z.leb_spec (Z.of_nat (length fields)) 4) as [Hle|Hgt].
  - assert (Hnone : nth_error fields 4 = None)
      by (apply nth_error_None; lia).
    now rewrite Hnone.
  - reflexivity.
Qed.

Lemma close_prices_loop_ok (rows : list string) :
  forall acc prices,
    close_prices_loop float rows acc = Ok prices
    <-> exists new, prices = acc ++ new /\ Forall2 (parses float) rows new.
Proof.
  induction rows as [|row rows IH]; intros acc prices; cbn [close_prices_loop].
  - split.
    + intros [= <-]. exists []. split; [now rewrite app_nil_r|constructor].
    + intros [new [-> Hall]]. inversion Hall. now rewrite app_nil_r.
  - rewrite getitem_field. split.
    + destruct (nth_error (str_split ","%char row) 4) as [field|] eqn:Ef;
        cbn [bind]; [|discriminate].
      destruct (float field) as [p|e] eqn:Ep; cbn [bind]; [|discriminate].
      intros H. apply IH in H. destruct H as [new [-> Hall]].
      exists (p :: new). split; [now rewrite <- app_assoc|].
      constructor; [|exact Hall]. exists field. split; assumption.
    + intros [new [-> Hall]].
      inversion Hall as [|r p rs ps [field [Ef Ep]] Hrest]; subst.
      rewrite Ef. cbn [bind]. rewrite Ep. cbn [bind].
      apply IH. exists ps. split; [now rewrite <- app_assoc|exact Hrest].
Qed.

Lemma slice_tail {A : Type} (x : A) (l : list A) :
  Py.slice (x :: l) 1 (Py.len (x :: l)) = l.
Proof.
  rewrite slice_inside by (unfold Py.len; cbn [length]; lia).
  unfold Py.len. cbn [length Z.to_nat Pos.to_nat Pos.iter_op Nat.add skipn].
  apply firstn_all2. lia.
Qed.

(** X24: the first line of the file is a header that is never parsed.  The
    function returns the prices [prices] exactly when every later line has
    a field number 4 that [float] accepts and [prices] are those values,
    one per line, in file order. *)
Theorem stock_close_prices_ok (header : string) (rows : list string)
  (prices : list R) :
  stock_close_prices float (header :: rows) = Ok prices
  <-> Forall2 (parses float) rows prices.
Proof.
  unfold stock_close_prices. rewrite slice_tail, close_prices_loop_ok.
  split.
  - intros [new [-> Hall]]. exact Hall.
  - intros Hall. exists prices. split; [reflexivity|exact Hall].
Qed.

Lemma close_prices_loop_raise (good : list string) :
  forall (acc good_prices : list R) (bad : string) (rest : list string) (e : exn),
    Forall2 (parses float) good good_prices ->
    (field <- Py.getitem (str_split ","%char bad) 4 ;; float field) = Raise e ->
    close_prices_loop float (good ++ bad :: rest) acc = Raise e.
Proof.
  induction good as [|row good IH]; intros acc ps bad rest e Hgood Hbad.
  - cbn [app close_prices_loop].
    destruct (Py.getitem (str_split ","%char bad) 4) as [field|e'];
      cbn [bind] in *; [|congruence].
    now rewrite Hbad.
  - inversion Hgood as [|r p rs ps' [field [Ef Ep]] Hrest]; subst.
    cbn [app close_prices_loop]. rewrite getitem_field, Ef. cbn [bind].
    rewrite Ep. cbn [bind]. apply (IH _ ps'); assumption.
Qed.

(** X25: the first line that does not parse decides the exception, and no
    prices are returned: a line with fewer than four commas raises an
    [IndexError], and a line whose field number 4 [float] rejects raises the
    exception of [float]. *)
Theorem stock_close_prices_bad_line (header bad : string)
  (good rest : list string) (good_prices : list R) :
  Forall2 (parses float) good good_prices ->
  ((count_char ","%char bad < 4)%nat ->
   stock_close_prices float (header :: good ++ bad :: rest) = Raise IndexError)
  /\ (forall field e,
        nth_error (str_split ","%char bad) 4 = Some field ->
        float field = Raise e ->
        stock_close_prices float (header :: good ++ bad :: rest) = Raise e).
Proof.
  intros Hgood. unfold stock_close_prices. rewrite slice_tail. split.
  - intros Hcount. apply (close_prices_loop_raise good [] good_prices);
      [exact Hgood|].
    rewrite getitem_field.
    assert (Hnone : nth_error (str_split ","%char bad) 4 = None).
    { apply nth_error_None. rewrite str_split_length. lia. }
    now rewrite Hnone.
  - intros field e Ef Ee.
    apply (close_prices_loop_raise good [] good_prices); [exact Hgood|].
    rewrite getitem_field, Ef. cbn [bind]. exact Ee.
Qed.
End ClosePricesFacts.

Lemma stock_close_prices_ok_witness :
  stock_close_prices float_sample
    ["Date,Open,High,Low,Close"; "d1,1,2,3,4.5"; "d2,1,2,3,5.5,9"]%string
  = Ok [4.5; 5.5]%R.
Proof.
  apply (stock_close_prices_ok float_sample).
  constructor; [|constructor; [|constructor]].
  - exists "4.5"%string. split; reflexivity.
  - exists "5.5"%string. split; reflexivity.
Defined.

Lemma stock_close_prices_bad_line_witness :
  stock_close_prices float_sample
    ("Date,Open,High,Low,Close" :: ["d1,1,2,3,4.5"] ++ "d2,1,2" :: [])%string
  = Raise IndexError.
Proof.
  apply (stock_close_prices_bad_line float_sample
           "Date,Open,High,Low,Close" "d2,1,2" ["d1,1,2,3,4.5"] [] [4.5%R])%string.
  - constructor; [|constructor].
    exists "4.5"%string. split; reflexivity.
  - cbn. lia.
Defined.


(** * Binary64 replays *)

Section Binary64.
Import PrimFloat.
Local Open Scope float_scope.

(** The daily rate in binary64, [7.43278783121859e-05]. *)
Lemma b64_daily_rate :
  B64.daily_treasury_bond_return_rate = 0x1.37c0f39e38p-14.
Proof. reflexivity. Qed.


(** C2, as stated, fails in binary64: on the all-equal returns
    [[0.05; 0.05; 0.05]] the mean of the excess returns is one unit in the
    last place above each of them, the standard deviation is [2^-57] and
    not 0, the guard is not taken, and the ratio is [7195047627630555]. *)
Lemma all_equal_returns_nonzero_ratio :
  B64.std (map (fun x => x - B64.daily_treasury_bond_return_rate)
               [B64.d0_05; B64.d0_05; B64.d0_05]) = 0x1p-57 /\
  (0x1p-57 =? 0) = false /\
  B64.sharpe_ratio_custom [B64.d0_05; B64.d0_05; B64.d0_05] = 7195047627630555.
Proof.
  split; [|split]; reflexivity.
Qed.
End Binary64.
